(** * IS-08-01 channel-mapping conformance suite (IS0801Test.py)

    A shallow embedding of the test cases of [IS0801Test] and the
    properties of their verdicts.

    The test cases are short orchestrations of helper calls.  The helpers
    (is08.inputs, is08.outputs, is08.active, is08.activation, is08.io,
    TestHelper, NMOSUtils, GenericTest) are separate modules; here they form
    the interface [Api], over which every definition and theorem is
    parametric.  Python exceptions are the [Raise] outcome of an error
    monad; the process-wide [globalConfig] and the device under test are the
    state threaded through it. *)

From stdpp Require Import base option list strings gmap.

Open Scope string_scope.
Open Scope list_scope.

(** ** JSON documents *)

#[local] Set Warnings "-register-all".

Inductive json :=
| JNull
| JBool (b : bool)
| JNum (n : Z)
| JStr (s : string)
| JArr (l : list json)
| JObj (m : gmap string json).

(** ** Results reported by a test (GenericTest's [test] object) *)

(** The handle a test case receives as its [test] argument. *)
Record Test := { test_name : string }.

Inductive TestState := Pass | Fail | NotApplicable | Manual.

Record TestResult := {
  result_test : Test;
  result_state : TestState;
  result_detail : string
}.

(** Modelled from the spec: the result-reporting object of the harness
    (GenericTest) with the terminal outcomes PASS, FAIL, NA and MANUAL, each
    building a result value; none of them raises (check_delayed_activation
    wraps the value of FAIL in an exception itself). *)
Definition PASS (t : Test) : TestResult :=
  {| result_test := t; result_state := Pass; result_detail := "" |}.
Definition FAIL (t : Test) (msg : string) : TestResult :=
  {| result_test := t; result_state := Fail; result_detail := msg |}.
Definition NA (t : Test) (msg : string) : TestResult :=
  {| result_test := t; result_state := NotApplicable; result_detail := msg |}.
Definition MANUAL (t : Test) : TestResult :=
  {| result_test := t; result_state := Manual; result_detail := "" |}.

(** ** Resources of the channel-mapping API *)

Record Channel := { channel_name : string }.

(** Modelled from the spec: the capabilities object of an output, which may
    contain a routable_inputs allow-list of input ids;
    [outputCaps['routable_inputs']] raises KeyError exactly when the field
    is absent ([None]). *)
Record Caps := { routable_inputs : option (list string) }.

(** Modelled from the spec: the Output and Input classes of is08.outputs and
    is08.inputs, as the immutable snapshots of the spec's data model. *)
Record Output := {
  output_id : string;
  output_source_id : option string;
  output_channels : list Channel;
  output_caps : Caps
}.

Record Input := {
  input_id : string;
  input_parent : option string;
  input_channels : list Channel;
  input_block_size : nat;
  input_reordering : bool;
  input_routable_outputs : list Output
}.

Class Resource (A : Type) := {
  id_ : A → string;
  channels_of : A → list Channel
}.

#[global] Instance Output_Resource : Resource Output :=
  {| id_ := output_id; channels_of := output_channels |}.
#[global] Instance Input_Resource : Resource Input :=
  {| id_ := input_id; channels_of := input_channels |}.

(** The accessors read the snapshot; [id_] is the attribute [id] and
    [channels_of] the channel sequence the snapshot holds. *)
Definition getSourceID (o : Output) : option string := output_source_id o.
Definition getCaps (o : Output) : Caps := output_caps o.
Definition getParent (i : Input) : option string := input_parent i.
Definition getReordering (i : Input) : bool := input_reordering i.
Definition getBlockSize (i : Input) : nat := input_block_size i.
Definition getRoutableOutputs (i : Input) : list Output := input_routable_outputs i.

(** Modelled from the spec: the Action value object of is08.action, an
    input id, an output and two optional channel indices.  The output
    argument is an output id or (test_14) the output instance itself. *)
Inductive OutputRef :=
| OutputId (s : string)
| OutputInstance (o : Output).

Record Action := {
  action_input : string;
  action_output : OutputRef;
  action_inputChannelIndex : option nat;
  action_outputChannelIndex : option nat
}.

Definition Action_ (i : string) (o : OutputRef) : Action :=
  {| action_input := i; action_output := o;
     action_inputChannelIndex := None; action_outputChannelIndex := None |}.

Definition Action_indexed (i : string) (o : OutputRef) (ic oc : nat) : Action :=
  {| action_input := i; action_output := o;
     action_inputChannelIndex := Some ic; action_outputChannelIndex := Some oc |}.

Inductive ActivationType :=
| IMMEDIATE_ACTIVATION
| SCHEDULED_RELATIVE_ACTIVATION
| SCHEDULED_ABSOLUTE_ACTIVATION.

(** Modelled from the spec: the Activation builder of is08.activation, an
    ordered sequence of actions, a type (immediate unless set) and a
    timestamp for the scheduled types. *)
Record Activation := {
  actions : list Action;
  type_ : ActivationType;
  activationTimestamp : option string
}.

Definition Activation_ : Activation :=
  {| actions := []; type_ := IMMEDIATE_ACTIVATION; activationTimestamp := None |}.

Definition addAction (a : Action) (act : Activation) : Activation :=
  {| actions := actions act ++ [a]; type_ := type_ act;
     activationTimestamp := activationTimestamp act |}.

Definition set_type (ty : ActivationType) (act : Activation) : Activation :=
  {| actions := actions act; type_ := ty;
     activationTimestamp := activationTimestamp act |}.

Definition set_activationTimestamp (ts : string) (act : Activation) : Activation :=
  {| actions := actions act; type_ := type_ act; activationTimestamp := Some ts |}.

(** ** Exceptions and outcomes *)

Inductive exn :=
| NMOSTestException (r : TestResult)
| IndexError
| ValueError
| KeyError
| TypeError
| AttributeError
| NameError
| OtherException (name : string).

Inductive Outcome (A : Type) :=
| Ok (a : A)
| Raise (e : exn).
Arguments Ok {A} a.
Arguments Raise {A} e.

(** ** The process-wide configuration (is08.testConfig.globalConfig) *)

Record GlobalConfig := {
  apiUrl : string;
  apiKey : string;
  test : option Test
}.

Definition MAPPING_API_KEY : string := "channelmapping".

(** ** Calls into the helper modules *)

Inductive Call :=
| GetInputList
| GetOutputList
| GetIOAsJSON
| UnrouteAll
| BuildJSONObject
| AssertActionCompleted (a : Action) (retries : option nat)
| GetInputChannelIndex (o : Output) (channel : nat)
| GetInputChannelName (o : Output) (channel : nat)
| FindAcceptableTestRoute (o : Output)
| FireActivation (act : Activation)
| CheckReject (act : Activation)
| CheckLock (act : Activation)
| Delete (act : Activation)
| GetTAITime (offset : nat)
| Sleep (secs : nat).

Definition Returns (c : Call) : Type :=
  match c with
  | GetInputList => list Input
  | GetOutputList => list Output
  | GetIOAsJSON => json
  | UnrouteAll => unit
  | BuildJSONObject => json
  | AssertActionCompleted _ _ => unit
  | GetInputChannelIndex _ _ => option nat
  | GetInputChannelName _ _ => option string
  | FindAcceptableTestRoute _ => Action
  | FireActivation _ => unit
  | CheckReject _ => unit
  | CheckLock _ => unit
  | Delete _ => unit
  | GetTAITime _ => string
  | Sleep _ => unit
  end.

(** The helper modules and the device behind them: [W] is whatever state
    they and the device hold.  A call reads the configuration, may change
    [W], and returns or raises.  [compare_json] is TestHelper's structural
    comparison; [assembleInputObject] and [assembleOutputObject] give the
    JSON form of a fetched resource; [no_channels_message] is the text with
    which [getChannelList] fails the test.  Building the helper objects
    ([Active()], [IO()], [Activation()], [Action(...)]) calls nothing. *)
Record Api (W : Type) := {
  perform : ∀ c : Call, GlobalConfig → W → Outcome (Returns c) * W;
  compare_json : json → json → bool;
  assembleInputObject : Input → json;
  assembleOutputObject : Output → json;
  no_channels_message : string
}.
Arguments perform {W} _ _ _ _.
Arguments compare_json {W} _ _ _.
Arguments assembleInputObject {W} _ _.
Arguments assembleOutputObject {W} _ _.
Arguments no_channels_message {W} _.

(** ** The monad of test code *)

(** [log] records every helper call together with the test handle the
    configuration held when the call was made. *)
Record State (W : Type) := {
  config : GlobalConfig;
  world : W;
  log : list (Call * option Test)
}.
Arguments config {W} _.
Arguments world {W} _.
Arguments log {W} _.

Definition M (W A : Type) : Type := State W → Outcome A * State W.

#[global] Instance M_ret {W} : MRet (M W) := λ A a s, (Ok a, s).
#[global] Instance M_bind {W} : MBind (M W) := λ A B f m s,
  match m s with
  | (Ok a, s') => f a s'
  | (Raise e, s') => (Raise e, s')
  end.

Definition raise {W A} (e : exn) : M W A := λ s, (Raise e, s).

(** [try: m except NMOSTestException as e: h e] *)
Definition try_except {W A} (m : M W A) (h : TestResult → M W A) : M W A := λ s,
  match m s with
  | (Raise (NMOSTestException r), s') => h r s'
  | other => other
  end.

(** [globalConfig.test = test] *)
Definition set_test {W} (t : Test) : M W unit := λ s,
  (Ok (),
   {| config := {| apiUrl := apiUrl (config s); apiKey := apiKey (config s);
                   test := Some t |};
      world := world s; log := log s |}).

Definition call {W} (api : Api W) (c : Call) : M W (Returns c) := λ s,
  let '(r, w) := perform api c (config s) (world s) in
  (r, {| config := config s; world := w;
         log := log s ++ [(c, test (config s))] |}).

(** [for x in xs: body], where the body may [return] from the function. *)
Fixpoint for_ {W A R} (xs : list A) (body : A → M W (option R)) : M W (option R) :=
  match xs with
  | [] => mret None
  | x :: xs' =>
      r ← body x;
      match r with
      | Some v => mret (Some v)
      | None => for_ xs' body
      end
  end.

(** A loop that updates local variables [acc] and has no [return]. *)
Fixpoint for_acc {W A B} (xs : list A) (acc : B) (body : B → A → M W B) : M W B :=
  match xs with
  | [] => mret acc
  | x :: xs' => acc' ← body acc x; for_acc xs' acc' body
  end.

Definition for_each {W A} (xs : list A) (body : A → M W unit) : M W unit :=
  for_acc xs () (λ _ x, body x).

(** The end of a function whose loop may have returned already. *)
Definition or_return {W R} (r : option R) (rest : M W R) : M W R :=
  match r with
  | Some v => mret v
  | None => rest
  end.

(** ** Python operations that can raise *)

(** [l[0]] *)
Definition first_item {W A} (l : list A) : M W A :=
  match l !! 0%nat with
  | Some x => mret x
  | None => raise IndexError
  end.

(** [l.remove(x)]: drops the first occurrence, ValueError when there is none. *)
Fixpoint remove_ (x : string) (l : list string) : option (list string) :=
  match l with
  | [] => None
  | y :: l' => if decide (x = y) then Some l' else (y ::.) <$> remove_ x l'
  end.

Definition list_remove {W} (x : string) (l : list string) : M W (list string) :=
  match remove_ x l with
  | Some l' => mret l'
  | None => raise ValueError
  end.

(** An attribute that holds a value, or a bound method that was not called
    ([f] is what calling it would run). *)
Inductive Attr (A : Type) :=
| Value (a : A)
| BoundMethod {B : Type} (f : unit → B).
Arguments Value {A} a.
Arguments BoundMethod {A B} f.

(** [len(x)]: a method object has no length. *)
Definition len {W A} (x : Attr (list A)) : M W nat :=
  match x with
  | Value l => mret (length l)
  | BoundMethod _ => raise TypeError
  end.

(** [k in x]: a method object is not iterable. *)
Definition contains {W} (k : string) (x : Attr (list string)) : M W bool :=
  match x with
  | Value l => mret (bool_decide (k ∈ l))
  | BoundMethod _ => raise TypeError
  end.

(** [d[k]] on a dict *)
Definition getitem {W A} (d : gmap string A) (k : string) : M W A :=
  match d !! k with
  | Some v => mret v
  | None => raise KeyError
  end.

(** [d[k1][k2] = v] on a JSON object whose entry [k1] is an object *)
Definition setitem2 {W} (d : gmap string json) (k1 k2 : string) (v : json)
  : M W (gmap string json) :=
  inner ← getitem d k1;
  match inner with
  | JObj m => mret (<[k1 := JObj (<[k2 := v]> m)]> d)
  | _ => raise TypeError
  end.

(** [x.id] where [x] is a list: lists have no such attribute. *)
Definition id_of_list {W A} (x : list A) : M W string := raise AttributeError.

(** [a != b] between a channel index and a channel name, either of which
    may be None: an int never equals a str. *)
Definition index_ne_name (a : option nat) (b : option string) : bool :=
  match a, b with
  | None, None => false
  | _, _ => true
  end.

(** [globalConfig.test], which has no [FAIL] to call while it is unset. *)
Definition current_test {W} : M W Test := λ s,
  match test (config s) with
  | Some t => (Ok t, s)
  | None => (Raise AttributeError, s)
  end.

(** Modelled from the spec: [getChannelList()] of is08.inputs and
    is08.outputs, which returns the ordered sequence of channels of the
    resource and fails the test with an explicit message if it is empty.
    A helper fails the test by raising NMOSTestException with the FAIL of
    the current test, as check_delayed_activation does. *)
Definition getChannelList {W A} `{Resource A} (api : Api W) (x : A)
  : M W (list Channel) :=
  match channels_of x with
  | [] =>
      t ← current_test;
      raise (NMOSTestException (FAIL t (no_channels_message api)))
  | channels => mret channels
  end.

(** ** The test cases of IS0801Test *)

Section IS0801Test.
Context {W : Type} (api : Api W).

Definition getInputList : M W (list Input) := call api GetInputList.
Definition getOutputList : M W (list Output) := call api GetOutputList.
Definition getIOAsJSON : M W json := call api GetIOAsJSON.
Definition unrouteAll : M W unit := call api UnrouteAll.
Definition buildJSONObject : M W json := call api BuildJSONObject.
Definition assertActionCompleted (a : Action) (retries : option nat) : M W unit :=
  call api (AssertActionCompleted a retries).
Definition getInputChannelIndex (o : Output) (channel : nat) : M W (option nat) :=
  call api (GetInputChannelIndex o channel).
Definition getInputChannelName (o : Output) (channel : nat) : M W (option string) :=
  call api (GetInputChannelName o channel).
Definition findAcceptableTestRoute (o : Output) : M W Action :=
  call api (FindAcceptableTestRoute o).
Definition fireActivation (act : Activation) : M W unit := call api (FireActivation act).
Definition checkReject (act : Activation) : M W unit := call api (CheckReject act).
Definition checkLock (act : Activation) : M W unit := call api (CheckLock act).
Definition delete_ (act : Activation) : M W unit := call api (Delete act).
Definition get_TAI_time (offset : nat) : M W string := call api (GetTAITime offset).
Definition sleep (secs : nat) : M W unit := call api (Sleep secs).

(** [__init__]: the configuration as the constructor leaves it; no test
    handle is set yet. *)
Definition init (url : string) : GlobalConfig :=
  {| apiUrl := url; apiKey := MAPPING_API_KEY; test := None |}.

Definition test_01_io_content_match (test : Test) : M W TestResult :=
  set_test test;;
  inputList ← getInputList;
  outputList ← getOutputList;
  ioJSON ← getIOAsJSON;
  let mockIoResource : gmap string json :=
    <["outputs" := JObj ∅]> (<["inputs" := JObj ∅]> ∅) in
  mockIoResource ← for_acc inputList mockIoResource (λ mock input,
    setitem2 mock "inputs" (id_ input) (assembleInputObject api input));
  mockIoResource ← for_acc outputList mockIoResource (λ mock output,
    setitem2 mock "outputs" (id_ output) (assembleOutputObject api output));
  if compare_json api (JObj mockIoResource) ioJSON
  then mret (PASS test)
  else mret (FAIL test "IO Resource does not correctly reflect the API resources").

Definition test_02_immediate_activation (test : Test) : M W TestResult :=
  set_test test;;
  outputList ← getOutputList;
  output0 ← first_item outputList;
  testRouteAction ← findAcceptableTestRoute output0;
  let activation := addAction testRouteAction Activation_ in
  fireActivation activation;;
  assertActionCompleted testRouteAction None;;
  mret (PASS test).

Definition check_delayed_activation (activationTime : string)
    (activationType : ActivationType) : M W unit :=
  unrouteAll;;
  preActivationState ← buildJSONObject;
  outputList ← getOutputList;
  output0 ← first_item outputList;
  testRouteAction ← findAcceptableTestRoute output0;
  let activation :=
    set_activationTimestamp activationTime
      (set_type activationType (addAction testRouteAction Activation_)) in
  try_except (fireActivation activation)
    (λ e, sleep 2;; raise (NMOSTestException e));;
  pendingState ← buildJSONObject;
  (if negb (compare_json api preActivationState pendingState)
   then t ← current_test;
        let msg := FAIL t "Scheduled Activation completed immediately" in
        raise (NMOSTestException msg)
   else mret ());;
  sleep 2;;
  assertActionCompleted testRouteAction (Some 5%nat);;
  sleep 1.

Definition test_03_relative_activation (test : Test) : M W TestResult :=
  set_test test;;
  let offset := "2:0" in
  check_delayed_activation offset SCHEDULED_RELATIVE_ACTIVATION;;
  mret (PASS test).

(** The offset passed to [get_TAI_time] is the literal 2.0, in seconds. *)
Definition test_04_absolute_activation (test : Test) : M W TestResult :=
  set_test test;;
  timestamp ← get_TAI_time 2;
  check_delayed_activation timestamp SCHEDULED_ABSOLUTE_ACTIVATION;;
  mret (PASS test).

Definition test_05_delete_activations (test : Test) : M W TestResult :=
  set_test test;;
  unrouteAll;;
  outputList ← getOutputList;
  output0 ← first_item outputList;
  testRouteAction ← findAcceptableTestRoute output0;
  let activation :=
    set_activationTimestamp "2:0"
      (set_type SCHEDULED_RELATIVE_ACTIVATION (addAction testRouteAction Activation_)) in
  try_except (fireActivation activation)
    (λ e, sleep 2;; raise (NMOSTestException e));;
  sleep 1;;
  delete_ activation;;
  mret (PASS test).

Definition test_06_locking_response (test : Test) : M W TestResult :=
  set_test test;;
  outputList ← getOutputList;
  output0 ← first_item outputList;
  testRouteAction ← findAcceptableTestRoute output0;
  let activation :=
    set_activationTimestamp "5:0"
      (set_type SCHEDULED_RELATIVE_ACTIVATION (addAction testRouteAction Activation_)) in
  fireActivation activation;;
  checkLock activation;;
  mret (PASS test).

(** The value of [test.FAIL(msg)] in the inner loop is dropped: the
    statement has no [return]. *)
Definition test_07_unrouted_channels_null (test : Test) : M W TestResult :=
  set_test test;;
  outputList ← getOutputList;
  for_each outputList (λ outputInstance,
    channelList ← getChannelList api outputInstance;
    for_each (seq 0 (length channelList)) (λ channelID,
      inputChannelIndex ← getInputChannelIndex outputInstance channelID;
      inputChannelName ← getInputChannelName outputInstance channelID;
      if bool_decide (inputChannelIndex = None) || bool_decide (inputChannelName = None)
      then if index_ne_name inputChannelIndex inputChannelName
           then let msg := "Both the channel index and name must be set"
                           +:+ " to `null` when the a channel is not routed" in
                let _ := FAIL test msg in
                mret ()
           else mret ()
      else mret ()));;
  mret (PASS test).

(** A re-entrant candidate: [{"input": inputInstance, "output": outputInstance}] *)
Record Route := { route_input : Input; route_output : Output }.

Definition reentrant_msg (route : Route) : string :=
  "It is possible to create a loop using re-entrant matricies"
  +:+ " between input " +:+ id_ (route_input route)
  +:+ " and output " +:+ id_ (route_output route).

(** The first pair of loops of test_08. *)
Definition forbiddenRoutes (outputList : list Output) (inputList : list Input)
  : list Route :=
  foldl (λ routes outputInstance,
    let sourceID := getSourceID outputInstance in
    foldl (λ routes inputInstance,
      let inputParent := getParent inputInstance in
      if bool_decide (sourceID = inputParent)
      then routes ++ [{| route_input := inputInstance; route_output := outputInstance |}]
      else routes) routes inputList) [] outputList.

Definition test_08_no_reentrant_loops (test : Test) : M W TestResult :=
  set_test test;;
  outputList ← getOutputList;
  inputList ← getInputList;
  r ← for_ (forbiddenRoutes outputList inputList) (λ route,
    let outputCaps := getCaps (route_output route) in
    let msg := reentrant_msg route in
    match routable_inputs outputCaps with
    | None => mret (Some (FAIL test msg))
    | Some routableInputs =>
        if negb (bool_decide (id_ (route_output route) ∈ routableInputs))
        then mret (Some (FAIL test msg))
        else mret None
    end);
  or_return r (mret (PASS test)).

Definition test_09_props_name (test : Test) : M W TestResult :=
  mret (MANUAL test).

Definition test_10_props_description (test : Test) : M W TestResult :=
  mret (MANUAL test).

Definition test_11_inputs_have_channels (test : Test) : M W TestResult :=
  set_test test;;
  inputList ← getInputList;
  r ← for_ inputList (λ inputInstance,
    channels ← getChannelList api inputInstance;
    if bool_decide (length channels = 0%nat)
    then mret (Some (FAIL test "Inputs must have at least one channel"))
    else mret None);
  or_return r (mret (PASS test)).

Definition test_12_outputs_have_channels (test : Test) : M W TestResult :=
  set_test test;;
  outputList ← getOutputList;
  r ← for_ outputList (λ outputInstance,
    channels ← getChannelList api outputInstance;
    if bool_decide (length channels = 0%nat)
    then mret (Some (FAIL test "Outputs must have at least one channel"))
    else mret None);
  or_return r (mret (PASS test)).

(** [{"output": outputInstance, "routableInputs": routableInputs}] *)
Record ConstrainedOutput := {
  constrained_output : Output;
  routableInputs : list string
}.

(** The first loop of test_13: the outputs whose caps have the field. *)
Definition constrainedOutputList (outputList : list Output) : list ConstrainedOutput :=
  foldl (λ acc outputInstance,
    let constraints := getCaps outputInstance in
    match routable_inputs constraints with
    | None => acc
    | Some routableInputs =>
        acc ++ [{| constrained_output := outputInstance;
                   routableInputs := routableInputs |}]
    end) [] outputList.

Definition inputIDList (inputList : list Input) : list string :=
  foldl (λ acc inputInstance, acc ++ [id_ inputInstance]) [] inputList.

Definition forbidden_msg (input output : string) : string :=
  "Was able to create a forbidden route between input " +:+ input
  +:+ " and output " +:+ output +:+ " despite routing constraint.".

(** In the failure message [outputInstance] is the variable of the first
    loop, which still holds the last output of [outputList]. *)
Definition test_13_violate_routing_constraints_rejected (test : Test)
  : M W TestResult :=
  set_test test;;
  outputList ← getOutputList;
  let outputInstance := last outputList in
  let constrainedOutputList := constrainedOutputList outputList in
  if bool_decide (length constrainedOutputList = 0%nat)
  then mret (NA test "Could not test - no outputs have routing constraints set.")
  else
    inputList ← getInputList;
    let inputIDList := inputIDList inputList in
    r ← for_ constrainedOutputList (λ constrainedOutput,
      forbiddenRoutes ← for_acc (routableInputs constrainedOutput) inputIDList
        (λ forbiddenRoutes routableInputID, list_remove routableInputID forbiddenRoutes);
      if bool_decide (0 < length forbiddenRoutes)%nat
      then
        forbidden0 ← first_item forbiddenRoutes;
        let action :=
          Action_ forbidden0 (OutputId (id_ (constrained_output constrainedOutput))) in
        let activation := addAction action Activation_ in
        try_except (checkReject activation;; mret None)
          (λ _,
             forbidden0 ← first_item forbiddenRoutes;
             match outputInstance with
             | Some outputInstance =>
                 let msg := forbidden_msg forbidden0 (id_ outputInstance) in
                 mret (Some (FAIL test msg))
             | None => raise NameError
             end)
      else mret None);
    or_return r (mret (NA test "Could not test - no route is forbidden.")).

(** [inputInstance.getChannelList], [outputInstance.getChannelList] and
    [targetOutputList.keys] are written without call parentheses: each is
    the method object, not the list. *)
Definition test_14_reordering_constraint (test : Test) : M W TestResult :=
  set_test test;;
  inputList ← getInputList;
  let '(constrainedInputs, constraintSet) :=
    foldl (λ '(constrainedInputs, constraintSet) inputInstance,
      if negb (getReordering inputInstance)
      then (constrainedInputs ++ [inputInstance], true)
      else (constrainedInputs, constraintSet)) ([], false) inputList in
  if negb constraintSet
  then mret (NA test "No inputs prevent re-ordering.")
  else
    '(filteredInputs, blockSize) ←
      for_acc constrainedInputs ([], None) (λ '(filteredInputs, _) inputInstance,
        let blockSize := getBlockSize inputInstance in
        n ← len (BoundMethod (λ _, getChannelList api inputInstance)
                   : Attr (list Channel));
        if bool_decide (blockSize * 2 ≤ n)%nat
        then mret (filteredInputs ++ [inputInstance], Some blockSize)
        else mret (filteredInputs, Some blockSize));
    '(targetOutputList, testableInputs) ←
      for_acc filteredInputs (∅, [])
        (λ '((targetOutputList, testableInputs) : gmap string Output * list Input)
           (inputInstance : Input),
        let routableOutputList := getRoutableOutputs inputInstance in
        targetOutputList ← for_acc routableOutputList targetOutputList
          (λ (targetOutputList : gmap string Output) (outputInstance : Output),
             n ← len (BoundMethod (λ _, getChannelList api outputInstance)
                        : Attr (list Channel));
             if bool_decide (getBlockSize inputInstance * 2 ≤ n)%nat
             then mret (<[id_ inputInstance := outputInstance]> targetOutputList)
             else mret targetOutputList);
        found ← contains (id_ inputInstance)
                  (BoundMethod (λ _, (map_to_list targetOutputList).*1));
        if (found : bool)
        then mret (targetOutputList, testableInputs ++ [inputInstance])
        else mret (targetOutputList, testableInputs));
    activation ← for_acc testableInputs Activation_ (λ activation inputInstance,
      for_acc (seq 0 (getBlockSize inputInstance)) activation
        (λ activation inputChannelIndex,
           blockSize ← match blockSize with
                       | Some b => mret b
                       | None => raise NameError
                       end;
           let outputChannelIndex := (inputChannelIndex + blockSize)%nat in
           target ← getitem targetOutputList (id_ inputInstance);
           let blockOneAction :=
             Action_indexed (id_ inputInstance) (OutputInstance target)
               inputChannelIndex outputChannelIndex in
           target ← getitem targetOutputList (id_ inputInstance);
           let blockTwoAction :=
             Action_indexed (id_ inputInstance) (OutputInstance target)
               outputChannelIndex inputChannelIndex in
           mret (addAction blockTwoAction (addAction blockOneAction activation))));
    r ← try_except (fireActivation activation;; mret None)
          (λ _, mret (Some (PASS test)));
    or_return r
      (mret (FAIL test "Channels could be re-ordered despite re-ordering constraint.")).

(** [getRoutableOutputs] returns the list that test_14 iterates over;
    [output.id] asks that list for an attribute it does not have. *)
Definition test_15_block_constraint (test : Test) : M W TestResult :=
  set_test test;;
  inputList ← getInputList;
  let '(constraintSet, constrainedInputs) :=
    foldl (λ '(constraintSet, constrainedInputs) inputInstance,
      if bool_decide (1 < getBlockSize inputInstance)%nat
      then (true, constrainedInputs ++ [inputInstance])
      else (constraintSet, constrainedInputs)) (false, []) inputList in
  if negb constraintSet
  then mret (NA test "No inputs constrain by block.")
  else
    chosenInput ← first_item constrainedInputs;
    let output := getRoutableOutputs chosenInput in
    output_id ← id_of_list output;
    let action := Action_ (id_ chosenInput) (OutputId output_id) in
    let activation := addAction action Activation_ in
    r ← try_except (fireActivation activation;; mret None)
          (λ _, mret (Some (PASS test)));
    or_return r (mret (FAIL test "Was able to break block size routing constraint")).

(** The suite: the fifteen test cases by number. *)
Inductive TestCase :=
| T01 | T02 | T03 | T04 | T05 | T06 | T07 | T08
| T09 | T10 | T11 | T12 | T13 | T14 | T15.

Definition run_test (tc : TestCase) (test : Test) : M W TestResult :=
  match tc with
  | T01 => test_01_io_content_match test
  | T02 => test_02_immediate_activation test
  | T03 => test_03_relative_activation test
  | T04 => test_04_absolute_activation test
  | T05 => test_05_delete_activations test
  | T06 => test_06_locking_response test
  | T07 => test_07_unrouted_channels_null test
  | T08 => test_08_no_reentrant_loops test
  | T09 => test_09_props_name test
  | T10 => test_10_props_description test
  | T11 => test_11_inputs_have_channels test
  | T12 => test_12_outputs_have_channels test
  | T13 => test_13_violate_routing_constraints_rejected test
  | T14 => test_14_reordering_constraint test
  | T15 => test_15_block_constraint test
  end.
End IS0801Test.



(** ** A simulated device, for concrete runs *)

Module Sim.
(** The device and the helper objects: the resources it serves, the
    number of routes currently applied and pending, and how it answers. *)
Record Device := {
  inputs : list Input;
  outputs : list Output;
  io : json;
  applied : nat;
  pending : nat;
  applies_scheduled_at_once : bool;
  accepts_forbidden : bool;
  index_of : string → nat → option nat;
  name_of : string → nat → option string
}.

Definition with_routes (d : Device) (a p : nat) : Device :=
  {| inputs := inputs d; outputs := outputs d; io := io d;
     applied := a; pending := p;
     applies_scheduled_at_once := applies_scheduled_at_once d;
     accepts_forbidden := accepts_forbidden d;
     index_of := index_of d; name_of := name_of d |}.

Definition reporter (cfg : GlobalConfig) : Test :=
  default {| test_name := "" |} (test cfg).

Definition failure {A} (cfg : GlobalConfig) (msg : string) : Outcome A :=
  Raise (NMOSTestException (FAIL (reporter cfg) msg)).

Definition respond (c : Call) (cfg : GlobalConfig) (d : Device)
  : Outcome (Returns c) * Device :=
  match c with
  | GetInputList => (Ok (inputs d), d)
  | GetOutputList => (Ok (outputs d), d)
  | GetIOAsJSON => (Ok (io d), d)
  | UnrouteAll => (Ok (), with_routes d 0 0)
  | BuildJSONObject => (Ok (JNum (Z.of_nat (applied d))), d)
  | AssertActionCompleted _ _ =>
      (if bool_decide (0 < applied d)%nat then Ok ()
       else failure cfg "Action did not complete", d)
  | GetInputChannelIndex o ch => (Ok (index_of d (id_ o) ch), d)
  | GetInputChannelName o ch => (Ok (name_of d (id_ o) ch), d)
  | FindAcceptableTestRoute o =>
      (match inputs d with
       | i :: _ => Ok (Action_ (id_ i) (OutputId (id_ o)))
       | [] => failure cfg "No acceptable route"
       end, d)
  | FireActivation act =>
      let n := length (actions act) in
      match type_ act with
      | IMMEDIATE_ACTIVATION => (Ok (), with_routes d (applied d + n) (pending d))
      | _ =>
          if applies_scheduled_at_once d
          then (Ok (), with_routes d (applied d + n) (pending d))
          else (Ok (), with_routes d (applied d) (pending d + n))
      end
  | CheckReject _ =>
      (if accepts_forbidden d then failure cfg "Activation was not rejected"
       else Ok (), d)
  | CheckLock _ => (Ok (), d)
  | Delete _ => (Ok (), with_routes d (applied d) 0)
  | GetTAITime _ => (Ok "0:0", d)
  | Sleep _ => (Ok (), with_routes d (applied d + pending d) 0)
  end.

(** Snapshots of this device are numbers, compared as such; any other
    pair of documents is compared by [other]. *)
Definition compare (other : bool) (a b : json) : bool :=
  match a, b with
  | JNum x, JNum y => bool_decide (x = y)
  | _, _ => other
  end.

Definition api (other : bool) : Api Device :=
  {| perform := respond;
     compare_json := compare other;
     assembleInputObject := λ i, JStr (id_ i);
     assembleOutputObject := λ o, JStr (id_ o);
     no_channels_message := "No channels" |}.

Definition device (ins : list Input) (outs : list Output) : Device :=
  {| inputs := ins; outputs := outs; io := JNull; applied := 0; pending := 0;
     applies_scheduled_at_once := false; accepts_forbidden := false;
     index_of := λ _ _, None; name_of := λ _ _, None |}.

Definition with_active (d : Device) (idx : string → nat → option nat)
    (nm : string → nat → option string) : Device :=
  {| inputs := inputs d; outputs := outputs d; io := io d;
     applied := applied d; pending := pending d;
     applies_scheduled_at_once := applies_scheduled_at_once d;
     accepts_forbidden := accepts_forbidden d;
     index_of := idx; name_of := nm |}.

Definition with_answers (d : Device) (at_once accepts : bool) : Device :=
  {| inputs := inputs d; outputs := outputs d; io := io d;
     applied := applied d; pending := pending d;
     applies_scheduled_at_once := at_once;
     accepts_forbidden := accepts;
     index_of := index_of d; name_of := name_of d |}.

Definition start (d : Device) : State Device :=
  {| config := init "http://device/x-nmos/channelmapping/v1.0/";
     world := d; log := [] |}.

Definition tester : Test := {| test_name := "test" |}.

Definition channels (n : nat) : list Channel :=
  (λ _, {| channel_name := "ch" |}) <$> seq 0 n.

Definition output (id : string) (source : string) (routable : option (list string)) : Output :=
  {| output_id := id; output_source_id := Some source;
     output_channels := channels 2;
     output_caps := {| routable_inputs := routable |} |}.

Definition input (id : string) (parent : string) (block : nat) (reorder : bool)
    (routable : list Output) : Input :=
  {| input_id := id; input_parent := Some parent;
     input_channels := channels 4; input_block_size := block;
     input_reordering := reorder; input_routable_outputs := routable |}.

Definition an_input : Input := input "in" "parent" 1 true [].
Definition an_output : Output := output "out" "src" None.

(** A device with one input and one output, and the same device with the
    fault of applying a scheduled activation on submission. *)
Definition sound : Device := device [an_input] [an_output].
Definition hasty : Device := with_answers sound true false.

(** A device with no outputs. *)
Definition no_outputs : Device := device [an_input] [].

(** A device that accepts every route; its first output allows no input and
    the allow-list of its second output names an id that is no input id. *)
Definition lenient : Device :=
  with_answers
    (device [input "in" "p" 1 true []]
       [output "out1" "src" (Some []); output "out2" "src" (Some ["unknown"])])
    false true.

(** The same helpers, except that submitting an activation raises [e]. *)
Definition respond_refusing (e : exn) (c : Call) (cfg : GlobalConfig) (d : Device)
  : Outcome (Returns c) * Device :=
  match c with
  | FireActivation _ => (Raise e, d)
  | other => respond other cfg d
  end.

Definition refusing (e : exn) : Api Device :=
  {| perform := respond_refusing e;
     compare_json := compare true;
     assembleInputObject := λ i, JStr (id_ i);
     assembleOutputObject := λ o, JStr (id_ o);
     no_channels_message := "No channels" |}.
End Sim.


(** ** test_01: the /map/io aggregate against its reconstruction *)

(** The reconstruction in the spec's words: every individual resource
    object filed under its id (a later resource with the same id replaces
    an earlier one, as dict assignment does). *)
Definition keyed_by_id {A} `{Resource A} (object : A → json) (l : list A)
  : gmap string json :=
  list_to_map (reverse ((λ x, (id_ x, object x)) <$> l)).

Definition io_reconstruction {W} (api : Api W) (ins : list Input) (outs : list Output)
  : json :=
  JObj (<["inputs" := JObj (keyed_by_id (assembleInputObject api) ins)]>
        (<["outputs" := JObj (keyed_by_id (assembleOutputObject api) outs)]> ∅)).

(** ** test_08: what the loop over the candidates checks *)

(** What test_08 checks for a candidate: the caps of its output have the
    field and the list in it holds the id of the output itself. *)
Definition lists_own_output (route : Route) : Prop :=
  ∃ l, routable_inputs (getCaps (route_output route)) = Some l
       ∧ id_ (route_output route) ∈ l.

(** ** test_13: allow-lists against the known input ids *)

Definition occurrences (x : string) (l : list string) : nat :=
  length (filter (λ y, y = x) l).

(** Every id listed in [allow] occurs in [ids], at least as many times. *)
Definition covers (ids allow : list string) : Prop :=
  ∀ x, (occurrences x allow ≤ occurrences x ids)%nat.

(** The removals of test_13 without the monad: [None] is the ValueError. *)
Fixpoint remove_all (allow ids : list string) : option (list string) :=
  match allow with
  | [] => Some ids
  | x :: allow' => remove_ x ids ≫= remove_all allow'
  end.

(** The submission test_13 makes for a constrained output: [checkReject] on
    the route from the first input id left after the removals, if any is
    left. *)
Definition submission (ids : list string) (c : ConstrainedOutput) : option Call :=
  match remove_all (routableInputs c) ids with
  | Some (forbidden0 :: _) =>
      Some (CheckReject
              (addAction (Action_ forbidden0 (OutputId (id_ (constrained_output c))))
                 Activation_))
  | _ => None
  end.

(** ** The test handle seen by helper calls *)

(** Code that leaves [globalConfig.test] at [t] and makes all its helper
    calls while the configuration holds [t]. *)
Definition keeps_handle {W A} (t : Test) (m : M W A) : Prop :=
  ∀ s, test (config s) = Some t →
    test (config (m s).2) = Some t ∧
    ∃ calls, log (m s).2 = log s ++ calls ∧ Forall (λ c, c.2 = Some t) calls.

(** ** Call sequences *)

(** The two queries of the Active resource that test_07 makes for each
    channel of an output, in the order it makes them. *)
Definition channel_queries (o : Output) : list Call :=
  channelID ← seq 0 (length (channels_of o));
  [GetInputChannelIndex o channelID; GetInputChannelName o channelID].

(** A helper call that returns normally in every state. *)
Definition returns_normally {W} (api : Api W) (c : Call) : Prop :=
  ∀ cfg w, ∃ r w', perform api c cfg w = (Ok r, w').

(** * Properties *)

(** ** Running test code: basic equations *)

Section Run.
Context {W : Type}.
Implicit Types s : State W.

Lemma run_bind {A B} (m : M W A) (f : A → M W B) s :
  (m ≫= f) s =
  match m s with
  | (Ok a, s') => f a s'
  | (Raise e, s') => (Raise e, s')
  end.
Proof. reflexivity. Qed.

Lemma run_bind_ok {A B} (m : M W A) (f : A → M W B) s a s' :
  m s = (Ok a, s') → (m ≫= f) s = f a s'.
Proof. intros H. rewrite run_bind, H. reflexivity. Qed.

Lemma run_bind_raise {A B} (m : M W A) (f : A → M W B) s e s' :
  m s = (Raise e, s') → (m ≫= f) s = (Raise e, s').
Proof. intros H. rewrite run_bind, H. reflexivity. Qed.

Lemma run_ret {A} (a : A) s : (mret a : M W A) s = (Ok a, s).
Proof. reflexivity. Qed.

Lemma run_try_ok {A} (m : M W A) h s a s' :
  m s = (Ok a, s') → try_except m h s = (Ok a, s').
Proof. intros H. unfold try_except. rewrite H. reflexivity. Qed.

Lemma run_try_caught {A} (m : M W A) h s r s' :
  m s = (Raise (NMOSTestException r), s') → try_except m h s = h r s'.
Proof. intros H. unfold try_except. rewrite H. reflexivity. Qed.
Lemma bind_ok_inv {A B} (m : M W A) (f : A → M W B) s b s' :
  (m ≫= f) s = (Ok b, s') → ∃ a s1, m s = (Ok a, s1) ∧ f a s1 = (Ok b, s').
Proof.
  rewrite run_bind. destruct (m s) as [[a|e] s1]; [eauto|discriminate].
Qed.

Lemma try_ok_inv {A} (m : M W A) h s a s' :
  try_except m h s = (Ok a, s') →
  m s = (Ok a, s') ∨
  ∃ r s1, m s = (Raise (NMOSTestException r), s1) ∧ h r s1 = (Ok a, s').
Proof.
  unfold try_except. destruct (m s) as [[a'|[]] s1]; eauto; discriminate.
Qed.

(** What a loop returns early was returned by one of its iterations. *)
Lemma for__returned {A R} (P : R → Prop) (xs : list A) (body : A → M W (option R)) :
  (∀ x s v s', x ∈ xs → body x s = (Ok (Some v), s') → P v) →
  ∀ s v s', for_ xs body s = (Ok (Some v), s') → P v.
Proof.
  induction xs as [|x xs IH]; intros Hb s v s' Hrun; simpl in Hrun.
  - discriminate.
  - apply bind_ok_inv in Hrun as (r & s1 & Hx & Hrest).
    destruct r as [v'|].
    + injection Hrest as -> _. eapply Hb; [left|exact Hx].
    + eapply IH; [|exact Hrest]. intros x' s0 v0 s0' Hin. apply Hb. by right.
Qed.
End Run.

(** ** Helper calls are made under the handle of the running test *)

Section Handle.
Context {W : Type} (api : Api W).

Lemma keeps_ret {A} t (a : A) : keeps_handle t (mret a : M W A).
Proof. intros s Hs. split; [done|]. exists []. by rewrite app_nil_r. Qed.

Lemma keeps_raise {A} t e : keeps_handle t (raise e : M W A).
Proof. intros s Hs. split; [done|]. exists []. by rewrite app_nil_r. Qed.

Lemma keeps_call t c : keeps_handle t (call api c).
Proof.
  intros s Hs. unfold call.
  destruct (perform api c (config s) (world s)) as [r w]. simpl.
  split; [done|]. exists [(c, test (config s))]. split; [done|].
  constructor; [done|constructor].
Qed.

Lemma keeps_bind {A B} t (m : M W A) (f : A → M W B) :
  keeps_handle t m → (∀ a, keeps_handle t (f a)) → keeps_handle t (m ≫= f).
Proof.
  intros Hm Hf s Hs. rewrite run_bind.
  destruct (Hm s Hs) as (Hc & calls & Hl & Hall).
  destruct (m s) as [[a|e] s1]; simpl in *.
  - destruct (Hf a s1 Hc) as (Hc' & calls' & Hl' & Hall').
    split; [done|]. exists (calls ++ calls'). split.
    + by rewrite Hl', Hl, app_assoc.
    + by apply Forall_app.
  - split; [done|]. by exists calls.
Qed.

Lemma keeps_try_except {A} t (m : M W A) h :
  keeps_handle t m → (∀ r, keeps_handle t (h r)) → keeps_handle t (try_except m h).
Proof.
  intros Hm Hh s Hs. unfold try_except.
  destruct (Hm s Hs) as (Hc & calls & Hl & Hall).
  destruct (m s) as [[a|e] s1]; simpl in *.
  - split; [done|]. by exists calls.
  - destruct e; try (split; [done|]; by exists calls).
    destruct (Hh r s1 Hc) as (Hc' & calls' & Hl' & Hall').
    split; [done|]. exists (calls ++ calls'). split.
    + by rewrite Hl', Hl, app_assoc.
    + by apply Forall_app.
Qed.

Lemma keeps_for_ {A R} t (xs : list A) (body : A → M W (option R)) :
  (∀ x, keeps_handle t (body x)) → keeps_handle t (for_ xs body).
Proof.
  intros Hb. induction xs as [|x xs IH]; simpl.
  - apply keeps_ret.
  - apply keeps_bind; [apply Hb|]. intros [v|]; [apply keeps_ret|apply IH].
Qed.

Lemma keeps_for_acc {A B} t (xs : list A) (acc : B) (body : B → A → M W B) :
  (∀ b x, keeps_handle t (body b x)) → keeps_handle t (for_acc xs acc body).
Proof.
  intros Hb. revert acc. induction xs as [|x xs IH]; intros acc; simpl.
  - apply keeps_ret.
  - apply keeps_bind; [apply Hb|]. intros b. apply IH.
Qed.

Lemma keeps_for_each {A} t (xs : list A) (body : A → M W unit) :
  (∀ x, keeps_handle t (body x)) → keeps_handle t (for_each xs body).
Proof. intros Hb. apply keeps_for_acc. intros _ x. apply Hb. Qed.

Lemma keeps_current_test t : keeps_handle t (current_test : M W Test).
Proof.
  intros s Hs. unfold current_test. rewrite Hs. simpl.
  split; [done|]. exists []. by rewrite app_nil_r.
Qed.

Lemma keeps_after_set_test {A} t (m : M W A) s :
  keeps_handle t m →
  test (config ((set_test t;; m) s).2) = Some t ∧
  ∃ calls, log ((set_test t;; m) s).2 = log s ++ calls
           ∧ Forall (λ c, c.2 = Some t) calls.
Proof.
  intros Hm. rewrite run_bind. simpl.
  destruct (Hm (set_test t s).2 eq_refl) as (Hc & calls & Hl & Hall).
  split; [exact Hc|]. exists calls. split; [exact Hl|exact Hall].
Qed.
End Handle.

Ltac keeps_step :=
  first
    [ apply keeps_ret
    | apply keeps_raise
    | match goal with
      | |- keeps_handle ?t (call ?api ?c) => exact (keeps_call api t c)
      end
    | apply keeps_current_test
    | apply keeps_bind; [|intros ?]
    | apply keeps_try_except; [|intros ?]
    | apply keeps_for_; intros ?
    | apply keeps_for_each; intros ?
    | apply keeps_for_acc; intros ? ?
    | match goal with
      | |- keeps_handle _ (match ?x with _ => _ end) => destruct x
      | |- keeps_handle _ ((match ?x with _ => _ end) _) => destruct x
      end ].

Ltac keeps_auto :=
  unfold getInputList, getOutputList, getIOAsJSON, unrouteAll, buildJSONObject,
    assertActionCompleted, getInputChannelIndex, getInputChannelName,
    findAcceptableTestRoute, fireActivation, checkReject, checkLock, delete_,
    get_TAI_time, sleep, first_item, list_remove, len, contains, setitem2,
    getitem, id_of_list, or_return, getChannelList;
  repeat keeps_step.

Section IOMatch.
Context {W : Type} (api : Api W).

Lemma foldl_insert_keyed {A} `{Resource A} (object : A → json) (l : list A)
    (m0 : gmap string json) :
  foldl (λ m x, <[id_ x := object x]> m) m0 l = keyed_by_id object l ∪ m0.
Proof.
  unfold keyed_by_id. revert m0.
  induction l as [|x l IH]; intros m0; simpl.
  - by rewrite (left_id_L ∅ (∪)).
  - rewrite IH, reverse_cons, list_to_map_app. simpl.
    rewrite insert_empty, <-(assoc_L (∪)).
    by rewrite <-insert_union_singleton_l.
Qed.

(** With distinct ids, each resource is found under its own id. *)
Lemma keyed_by_id_lookup {A} `{Resource A} (object : A → json) (l : list A) (x : A) :
  NoDup (id_ <$> l) → x ∈ l → keyed_by_id object l !! id_ x = Some (object x).
Proof.
  intros Hnd Hx. unfold keyed_by_id. apply elem_of_list_to_map_1.
  - by rewrite fmap_reverse, reverse_Permutation, <-list_fmap_compose.
  - apply elem_of_reverse, list_elem_of_fmap. by exists x.
Qed.

(** The in-place updates [mock[k][x.id] = object(x)] never fail once
    [mock[k]] is an object, and fill that object key by key. *)
Lemma for_acc_setitem2 {A} `{Resource A} (object : A → json) (k : string)
    (l : list A) (d m0 : gmap string json) (s : State W) :
  d !! k = Some (JObj m0) →
  for_acc l d (λ mock x, setitem2 mock k (id_ x) (object x)) s =
  (Ok (<[k := JObj (foldl (λ m x, <[id_ x := object x]> m) m0 l)]> d), s).
Proof.
  revert d m0. induction l as [|x l IH]; intros d m0 Hd; simpl.
  - rewrite run_ret. by rewrite insert_id.
  - rewrite run_bind. unfold setitem2 at 1, getitem.
    rewrite run_bind, Hd. simpl.
    rewrite (IH _ (<[id_ x := object x]> m0)) by apply lookup_insert_eq.
    by rewrite insert_insert_eq.
Qed.
End IOMatch.

(** C7: test_01 reports PASS exactly when [compare_json] accepts the
    client-side reconstruction (every input object under "inputs" keyed by
    input id, every output object under "outputs" keyed by output id)
    against the aggregate read from /map/io, and FAIL otherwise. *)
Theorem test_01_pass_iff_io_matches {W} (api : Api W) (t : Test)
    (s s1 s2 s3 : State W) (ins : list Input) (outs : list Output) (io : json) :
  getInputList api (set_test t s).2 = (Ok ins, s1) →
  getOutputList api s1 = (Ok outs, s2) →
  getIOAsJSON api s2 = (Ok io, s3) →
  ((test_01_io_content_match api t s).1 = Ok (PASS t)
     ↔ compare_json api (io_reconstruction api ins outs) io = true) ∧
  (compare_json api (io_reconstruction api ins outs) io = false →
     (test_01_io_content_match api t s).1 =
       Ok (FAIL t "IO Resource does not correctly reflect the API resources")).
Proof.
  intros Hin Hout Hio.
  assert (Hrun : test_01_io_content_match api t s =
    (Ok (if compare_json api (io_reconstruction api ins outs) io
         then PASS t
         else FAIL t "IO Resource does not correctly reflect the API resources"),
     s3)).
  { unfold test_01_io_content_match.
    rewrite run_bind. change (set_test t s) with (Ok (), (set_test t s).2).
    cbv beta iota.
    rewrite (run_bind_ok _ _ _ _ _ Hin), (run_bind_ok _ _ _ _ _ Hout),
      (run_bind_ok _ _ _ _ _ Hio).
    rewrite run_bind.
    rewrite (for_acc_setitem2 (assembleInputObject api) "inputs" ins _ ∅)
      by (by rewrite lookup_insert_ne, lookup_insert_eq).
    rewrite run_bind.
    rewrite (for_acc_setitem2 (assembleOutputObject api) "outputs" outs _ ∅)
      by (by rewrite lookup_insert_ne, lookup_insert_eq by done).
    rewrite !foldl_insert_keyed, !(right_id_L ∅ (∪)).
    change (JObj _) with (io_reconstruction api ins outs).
    by destruct (compare_json _ _ _). }
  rewrite Hrun. simpl. split.
  - destruct (compare_json _ _ _); split; intros H; try done.
  - by intros ->.
Qed.

(** ** Scheduled activations and the first output *)

Ltac run_set_test t s :=
  rewrite run_bind; change (set_test t s) with (Ok (), (set_test t s).2);
  cbv beta iota.

Ltac run_ok H := rewrite (run_bind_ok _ _ _ _ _ H).

Section Calls.
Context {W : Type} (api : Api W).

Lemma call_state (c : Call) (s s' : State W) (r : Outcome (Returns c)) :
  call api c s = (r, s') →
  config s' = config s ∧ log s' = log s ++ [(c, test (config s))].
Proof.
  unfold call. destruct (perform api c (config s) (world s)) as [r' w].
  intros [= _ <-]. done.
Qed.

Lemma call_log (c : Call) (s s' : State W) (r : Outcome (Returns c)) :
  call api c s = (r, s') → (log s').*1 = (log s).*1 ++ [c].
Proof.
  intros H. destruct (call_state _ _ _ _ H) as [_ ->].
  by rewrite fmap_app.
Qed.
End Calls.

(** C4: once the scheduled activation is submitted, check_delayed_activation
    compares the Active snapshot read right after the submission with the
    one read before it.  When [compare_json] rejects the pair it raises the
    FAIL result of the current test, having made no call after the second
    snapshot; only when the pair is accepted does it go on to sleep 2
    seconds, assert the action completed with [retries=5], and sleep 1
    second. *)
Theorem check_delayed_activation_compares_then_waits {W} (api : Api W)
    (activationTime : string) (activationType : ActivationType) (t : Test)
    (s s1 s2 s3 s4 s5 s6 : State W) (pre pending : json)
    (o : Output) (outs : list Output) (a : Action) :
  let activation :=
    set_activationTimestamp activationTime
      (set_type activationType (addAction a Activation_)) in
  test (config s) = Some t →
  unrouteAll api s = (Ok (), s1) →
  buildJSONObject api s1 = (Ok pre, s2) →
  getOutputList api s2 = (Ok (o :: outs), s3) →
  findAcceptableTestRoute api o s3 = (Ok a, s4) →
  fireActivation api activation s4 = (Ok (), s5) →
  buildJSONObject api s5 = (Ok pending, s6) →
  (compare_json api pre pending = false →
     check_delayed_activation api activationTime activationType s =
       (Raise (NMOSTestException
                 (FAIL t "Scheduled Activation completed immediately")), s6)
     ∧ (log s6).*1 =
         (log s).*1 ++ [UnrouteAll; BuildJSONObject; GetOutputList;
                        FindAcceptableTestRoute o; FireActivation activation;
                        BuildJSONObject]) ∧
  (compare_json api pre pending = true →
     check_delayed_activation api activationTime activationType s =
       (sleep api 2;; assertActionCompleted api a (Some 5%nat);; sleep api 1) s6).
Proof.
  intros activation Ht H1 H2 H3 H4 H5 H6.
  assert (Hrun : check_delayed_activation api activationTime activationType s =
    ((if negb (compare_json api pre pending)
      then t' ← current_test;
           raise (NMOSTestException
                    (FAIL t' "Scheduled Activation completed immediately"))
      else mret ());;
     sleep api 2;; assertActionCompleted api a (Some 5%nat);; sleep api 1) s6).
  { unfold check_delayed_activation.
    run_ok H1. run_ok H2. run_ok H3.
    rewrite (run_bind_ok (first_item (o :: outs)) _ s3 o s3 eq_refl).
    run_ok H4.
    rewrite run_bind. fold activation. rewrite (run_try_ok _ _ _ _ _ H5).
    run_ok H6. reflexivity. }
  pose proof (call_state api UnrouteAll _ _ _ H1) as [E1 _].
  pose proof (call_state api BuildJSONObject _ _ _ H2) as [E2 _].
  pose proof (call_state api GetOutputList _ _ _ H3) as [E3 _].
  pose proof (call_state api (FindAcceptableTestRoute o) _ _ _ H4) as [E4 _].
  pose proof (call_state api (FireActivation activation) _ _ _ H5) as [E5 _].
  pose proof (call_state api BuildJSONObject _ _ _ H6) as [E6 _].
  assert (Hcfg : test (config s6) = Some t)
    by (by rewrite E6, E5, E4, E3, E2, E1).
  split.
  - intros Hcmp. split.
    + rewrite Hrun, Hcmp. simpl. rewrite run_bind, run_bind.
      unfold current_test at 1. rewrite Hcfg. reflexivity.
    + rewrite (call_log api BuildJSONObject _ _ _ H6),
        (call_log api (FireActivation activation) _ _ _ H5),
        (call_log api (FindAcceptableTestRoute o) _ _ _ H4),
        (call_log api GetOutputList _ _ _ H3),
        (call_log api BuildJSONObject _ _ _ H2),
        (call_log api UnrouteAll _ _ _ H1).
      by rewrite <-!(assoc_L (++)).
  - intros Hcmp. rewrite Hrun, Hcmp. simpl. by rewrite run_bind, run_ret.
Qed.

(** C10: on a device whose output list is empty, test_02, test_05, test_06,
    check_delayed_activation and through it test_03 and test_04 raise
    IndexError at [outputList[0]] (the helper calls made before the access
    returning normally), and so return no verdict. *)
Theorem empty_output_list_raises_IndexError {W} (api : Api W) (t : Test)
    (s : State W) :
  (∀ s1, getOutputList api (set_test t s).2 = (Ok [], s1) →
     test_02_immediate_activation api t s = (Raise IndexError, s1) ∧
     test_06_locking_response api t s = (Raise IndexError, s1)) ∧
  (∀ s1 s2,
     unrouteAll api (set_test t s).2 = (Ok (), s1) →
     getOutputList api s1 = (Ok [], s2) →
     test_05_delete_activations api t s = (Raise IndexError, s2)) ∧
  (∀ activationTime activationType s1 s2 s3 pre,
     unrouteAll api s = (Ok (), s1) →
     buildJSONObject api s1 = (Ok pre, s2) →
     getOutputList api s2 = (Ok [], s3) →
     check_delayed_activation api activationTime activationType s =
       (Raise IndexError, s3)) ∧
  (∀ s1 s2 s3 pre,
     unrouteAll api (set_test t s).2 = (Ok (), s1) →
     buildJSONObject api s1 = (Ok pre, s2) →
     getOutputList api s2 = (Ok [], s3) →
     test_03_relative_activation api t s = (Raise IndexError, s3)) ∧
  (∀ timestamp s0 s1 s2 s3 pre,
     get_TAI_time api 2 (set_test t s).2 = (Ok timestamp, s0) →
     unrouteAll api s0 = (Ok (), s1) →
     buildJSONObject api s1 = (Ok pre, s2) →
     getOutputList api s2 = (Ok [], s3) →
     test_04_absolute_activation api t s = (Raise IndexError, s3)).
Proof.
  assert (Hcda : ∀ activationTime activationType s' s1 s2 s3 pre,
     unrouteAll api s' = (Ok (), s1) →
     buildJSONObject api s1 = (Ok pre, s2) →
     getOutputList api s2 = (Ok [], s3) →
     check_delayed_activation api activationTime activationType s' =
       (Raise IndexError, s3)).
  { intros tm ty s' s1 s2 s3 pre H1 H2 H3. unfold check_delayed_activation.
    run_ok H1. run_ok H2. run_ok H3. reflexivity. }
  repeat split.
  - unfold test_02_immediate_activation. run_set_test t s. run_ok H. reflexivity.
  - unfold test_06_locking_response. run_set_test t s. run_ok H. reflexivity.
  - intros s1 s2 H1 H2. unfold test_05_delete_activations.
    run_set_test t s. run_ok H1. run_ok H2. reflexivity.
  - intros tm ty s1 s2 s3 pre. apply Hcda.
  - intros s1 s2 s3 pre H1 H2 H3. unfold test_03_relative_activation.
    run_set_test t s.
    rewrite (run_bind_raise _ _ _ _ _ (Hcda _ _ _ _ _ _ _ H1 H2 H3)). reflexivity.
  - intros timestamp s0 s1 s2 s3 pre H0 H1 H2 H3.
    unfold test_04_absolute_activation. run_set_test t s. run_ok H0.
    rewrite (run_bind_raise _ _ _ _ _ (Hcda _ _ _ _ _ _ _ H1 H2 H3)). reflexivity.
Qed.

(** ** The shared configuration across the suite *)

(** C8 (as amended): every test case except the two manual ones (test_09,
    test_10) leaves [globalConfig.test] holding its own handle, whatever the
    configuration held before, and every helper call it makes is made while
    the configuration holds that handle; test_09 and test_10 make no helper
    call and leave the whole state as it was. *)
Theorem test_handle_set_before_calls {W} (api : Api W) (tc : TestCase)
    (t : Test) (s : State W) :
  match tc with
  | T09 | T10 => (run_test api tc t s).2 = s
  | _ =>
      test (config (run_test api tc t s).2) = Some t ∧
      ∃ calls, log (run_test api tc t s).2 = log s ++ calls
               ∧ Forall (λ c, c.2 = Some t) calls
  end.
Proof.
  destruct tc; try reflexivity; simpl;
    apply keeps_after_set_test;
    unfold check_delayed_activation; keeps_auto.
Qed.

(** C8 (as stated) fails: after test_09 the configuration still holds the
    handle of the previous test. *)
Lemma test_09_keeps_previous_handle :
  ¬ (∀ (tc : TestCase) (t : Test) (s : State Sim.Device),
       test (config (run_test (Sim.api true) tc t s).2) = Some t).
Proof.
  intros H.
  specialize (H T09 Sim.tester
    {| config := {| apiUrl := ""; apiKey := MAPPING_API_KEY;
                    test := Some {| test_name := "previous" |} |};
       world := Sim.device [] []; log := [] |}).
  discriminate H.
Qed.

(** ** test_07: unrouted channels *)

(** X3: whatever the Active resource answers, test_07 ends in PASS unless a
    helper call raises: the FAIL it builds for a partial null is dropped. *)
Lemma test_07_pass_or_raise {W} (api : Api W) (t : Test) (s : State W) :
  (test_07_unrouted_channels_null api t s).1 = Ok (PASS t) ∨
  ∃ e, (test_07_unrouted_channels_null api t s).1 = Raise e.
Proof.
  unfold test_07_unrouted_channels_null. run_set_test t s.
  rewrite run_bind.
  destruct (getOutputList api _) as [[outs|e] s1]; [|right; by exists e].
  rewrite run_bind.
  destruct (for_each outs _ s1) as [[[]|e] s2]; [by left|right; by exists e].
Qed.

(** C2 (the code at the failing input): the Active resource gives channel 0
    of output "out" a name and no index, a partial null, and test_07 still
    reports PASS. *)
Theorem test_07_passes_partial_null :
  let d := Sim.with_active (Sim.device [] [Sim.output "out" "src" None])
             (λ _ _, None) (λ _ _, Some "L") in
  Sim.index_of d "out" 0 = None ∧
  Sim.name_of d "out" 0 = Some "L" ∧
  (test_07_unrouted_channels_null (Sim.api true) Sim.tester (Sim.start d)).1
    = Ok (PASS Sim.tester).
Proof. repeat split. Qed.

(** ** test_13: violating routing constraints *)

Section Test13.
Context {W : Type} (api : Api W).

(** X9: the verdict of test_13 is never PASS: it is NA, or the FAIL
    returned from the loop. *)
Lemma test_13_never_passes (t : Test) (s s' : State W) (r : TestResult) :
  test_13_violate_routing_constraints_rejected api t s = (Ok r, s') →
  result_state r = NotApplicable ∨ result_state r = Fail.
Proof.
  unfold test_13_violate_routing_constraints_rejected. run_set_test t s.
  intros H. apply bind_ok_inv in H as (outs & s1 & _ & H).
  case_bool_decide.
  { injection H as <- _. by left. }
  apply bind_ok_inv in H as (ins & s2 & _ & H).
  apply bind_ok_inv in H as (ret & s3 & Hloop & H).
  destruct ret as [v|]; simpl in H.
  - injection H as <- _. right.
    apply (for__returned (λ v, result_state v = Fail) _ _) in Hloop; [done|].
    clear. intros c s v s' _ H.
    apply bind_ok_inv in H as (fr & s1 & _ & H).
    case_bool_decide; [|discriminate].
    apply bind_ok_inv in H as (f0 & s2 & _ & H).
    apply try_ok_inv in H as [H|(r & s3 & _ & H)].
    + apply bind_ok_inv in H as (? & ? & _ & H). discriminate.
    + apply bind_ok_inv in H as (f1 & s4 & _ & H).
      destruct (last outs); [|discriminate]. by injection H as <- _.
  - injection H as <- _. by left.
Qed.
End Test13.

(** C3 (the code at the failing input): output "out" allows no input, input
    "in" is known, so the route in -> out is forbidden.  test_13 submits it
    through [checkReject], the device rejects it, and the verdict is NA
    where the specification expects PASS. *)
Theorem test_13_rejected_route_gives_NA :
  let d := Sim.device [Sim.input "in" "p" 1 true []]
                      [Sim.output "out" "src" (Some [])] in
  let run := test_13_violate_routing_constraints_rejected
               (Sim.api true) Sim.tester (Sim.start d) in
  run.1 = Ok (NA Sim.tester "Could not test - no route is forbidden.") ∧
  (log run.2).*1 =
    [GetOutputList; GetInputList;
     CheckReject (addAction (Action_ "in" (OutputId "out")) Activation_)].
Proof. split; reflexivity. Qed.

(** ** test_14 and test_15: re-ordering and block constraints *)

Section Constraints.
Context {W : Type} (api : Api W).

Lemma constrained_by_reordering (ins : list Input) (cs : list Input) (f : bool) :
  foldl (λ '(constrainedInputs, constraintSet) inputInstance,
    if negb (getReordering inputInstance)
    then (constrainedInputs ++ [inputInstance], true)
    else (constrainedInputs, constraintSet)) (cs, f) ins =
  (cs ++ List.filter (λ i, negb (getReordering i)) ins,
   f || existsb (λ i, negb (getReordering i)) ins).
Proof.
  revert cs f. induction ins as [|i ins IH]; intros cs f; simpl.
  - by rewrite app_nil_r, orb_false_r.
  - destruct (negb (getReordering i)); simpl; rewrite IH.
    + by rewrite <-(assoc_L (++)), orb_true_r.
    + done.
Qed.

Lemma constrained_by_block (ins : list Input) (cs : list Input) (f : bool) :
  foldl (λ '(constraintSet, constrainedInputs) inputInstance,
    if bool_decide (1 < getBlockSize inputInstance)%nat
    then (true, constrainedInputs ++ [inputInstance])
    else (constraintSet, constrainedInputs)) (f, cs) ins =
  (f || existsb (λ i, bool_decide (1 < getBlockSize i)%nat) ins,
   cs ++ List.filter (λ i, bool_decide (1 < getBlockSize i)%nat) ins).
Proof.
  revert cs f. induction ins as [|i ins IH]; intros cs f; simpl.
  - by rewrite app_nil_r, orb_false_r.
  - destruct (bool_decide (1 < getBlockSize i)%nat); simpl; rewrite IH.
    + by rewrite <-(assoc_L (++)), orb_true_r.
    + done.
Qed.

Lemma existsb_filter_cons {A} (p : A → bool) (l : list A) :
  existsb p l = true → ∃ x l', List.filter p l = x :: l'.
Proof.
  induction l as [|x l IH]; simpl; [discriminate|].
  destruct (p x); [eauto|]. apply IH.
Qed.

(** X10: test_14 ends in NA when every input allows re-ordering, and otherwise
    in TypeError, raised by [len(inputInstance.getChannelList)] on the first
    constrained input: it reports neither PASS nor FAIL. *)
Lemma test_14_NA_or_TypeError (t : Test) (s s1 : State W) (ins : list Input) :
  getInputList api (set_test t s).2 = (Ok ins, s1) →
  test_14_reordering_constraint api t s =
    if existsb (λ i, negb (getReordering i)) ins
    then (Raise TypeError, s1)
    else (Ok (NA t "No inputs prevent re-ordering."), s1).
Proof.
  intros Hin. unfold test_14_reordering_constraint.
  run_set_test t s. run_ok Hin. rewrite constrained_by_reordering. simpl.
  destruct (existsb _ ins) eqn:E; [|reflexivity]. simpl.
  apply existsb_filter_cons in E as (i & l' & ->). reflexivity.
Qed.

(** X11: test_15 ends in NA when no input has a block size above 1, and
    otherwise in AttributeError, raised by [output.id] on the list of
    routable outputs: it reports neither PASS nor FAIL. *)
Lemma test_15_NA_or_AttributeError (t : Test) (s s1 : State W) (ins : list Input) :
  getInputList api (set_test t s).2 = (Ok ins, s1) →
  test_15_block_constraint api t s =
    if existsb (λ i, bool_decide (1 < getBlockSize i)%nat) ins
    then (Raise AttributeError, s1)
    else (Ok (NA t "No inputs constrain by block."), s1).
Proof.
  intros Hin. unfold test_15_block_constraint.
  run_set_test t s. run_ok Hin. rewrite constrained_by_block. simpl.
  destruct (existsb _ ins) eqn:E; [|reflexivity]. simpl.
  apply existsb_filter_cons in E as (i & l' & ->). reflexivity.
Qed.
End Constraints.

(** C5 (the code at the failing input): input "in" forbids re-ordering and
    has, like its routable output, enough channels for a swap of its first
    two blocks.  test_14 submits nothing and ends in TypeError where the
    specification expects PASS or FAIL. *)
Theorem test_14_raises_TypeError :
  let out := Sim.output "out" "src" None in
  let d := Sim.device [Sim.input "in" "p" 1 false [out]] [out] in
  let run := test_14_reordering_constraint (Sim.api true) Sim.tester (Sim.start d) in
  run.1 = Raise TypeError ∧ (log run.2).*1 = [GetInputList].
Proof. split; reflexivity. Qed.

(** C6 (the code at the failing input): input "in" has block size 2 and a
    routable output.  test_15 submits nothing and ends in AttributeError
    where the specification expects PASS or FAIL. *)
Theorem test_15_raises_AttributeError :
  let out := Sim.output "out" "src" None in
  let d := Sim.device [Sim.input "in" "p" 2 true [out]] [out] in
  let run := test_15_block_constraint (Sim.api true) Sim.tester (Sim.start d) in
  run.1 = Raise AttributeError ∧ (log run.2).*1 = [GetInputList].
Proof. split; reflexivity. Qed.

(** ** test_08: re-entrant loops *)

Section Test08.
Context {W : Type} (api : Api W).

Lemma elem_of_candidates_of_output (o : Output) (ins : list Input)
    (acc : list Route) (r : Route) :
  r ∈ foldl (λ routes inputInstance,
        if bool_decide (getSourceID o = getParent inputInstance)
        then routes ++ [{| route_input := inputInstance; route_output := o |}]
        else routes) acc ins
  ↔ r ∈ acc ∨ ∃ i, i ∈ ins ∧ getSourceID o = getParent i
                   ∧ r = {| route_input := i; route_output := o |}.
Proof.
  revert acc. induction ins as [|i ins IH]; intros acc; simpl.
  - split; [by left|]. intros [H|(i & Hi & _)]; [done|]. by apply elem_of_nil in Hi.
  - rewrite IH. case_bool_decide as Hsrc.
    + rewrite elem_of_app, list_elem_of_singleton. split.
      * intros [[H| ->]|(i' & Hi' & Hs' & ->)]; [by left|right..].
        -- exists i. split; [left|done].
        -- exists i'. split; [by right|done].
      * intros [H|(i' & Hi' & Hs' & ->)]; [by left; left|].
        apply elem_of_cons in Hi' as [->|Hi']; [by left; right|].
        right. by exists i'.
    + split.
      * intros [H|(i' & Hi' & Hs' & ->)]; [by left|right].
        exists i'. split; [by right|done].
      * intros [H|(i' & Hi' & Hs' & ->)]; [by left|].
        apply elem_of_cons in Hi' as [->|Hi']; [done|].
        right. by exists i'.
Qed.

(** The re-entrant candidates are the pairs of a fetched output and a
    fetched input with [output.sourceID == input.parent]. *)
Lemma elem_of_forbiddenRoutes (outs : list Output) (ins : list Input) (r : Route) :
  r ∈ forbiddenRoutes outs ins
  ↔ route_output r ∈ outs ∧ route_input r ∈ ins
    ∧ getSourceID (route_output r) = getParent (route_input r).
Proof.
  unfold forbiddenRoutes.
  assert (Hgen : ∀ acc,
    r ∈ foldl (λ routes outputInstance,
          foldl (λ routes inputInstance,
            if bool_decide (getSourceID outputInstance = getParent inputInstance)
            then routes ++ [{| route_input := inputInstance;
                               route_output := outputInstance |}]
            else routes) routes ins) acc outs
    ↔ r ∈ acc ∨ (route_output r ∈ outs ∧ route_input r ∈ ins
                 ∧ getSourceID (route_output r) = getParent (route_input r))).
  { induction outs as [|o outs IH]; intros acc; simpl.
    - split; [by left|]. intros [H|[H _]]; [done|]. by apply elem_of_nil in H.
    - rewrite IH, elem_of_candidates_of_output. split.
      + intros [[H|(i & Hi & Hs & ->)]|(Ho & Hi & Hs)]; [by left|right..]; simpl.
        * split; [left|done].
        * split; [by right|done].
      + intros [H|(Ho & Hi & Hs)]; [by left; left|].
        apply elem_of_cons in Ho as [Ho|Ho]; [|by right].
        left. right. exists (route_input r). destruct r; simpl in *. by subst. }
  rewrite Hgen. split; [|by right]. intros [H|H]; [|done]. by apply elem_of_nil in H.
Qed.

Lemma test_08_loop (t : Test) (routes : list Route) (s : State W) :
  ∃ r, for_ routes (λ route,
         let outputCaps := getCaps (route_output route) in
         let msg := reentrant_msg route in
         match routable_inputs outputCaps with
         | None => mret (Some (FAIL t msg))
         | Some routableInputs =>
             if negb (bool_decide (id_ (route_output route) ∈ routableInputs))
             then mret (Some (FAIL t msg))
             else mret None
         end) s = (Ok r, s)
       ∧ (r = None ↔ Forall lists_own_output routes)
       ∧ (∀ v, r = Some v → result_state v = Fail).
Proof.
  set (body := λ route : Route, _).
  induction routes as [|route routes IH].
  - exists None. split; [done|]. split; [done|]. intros v [=].
  - destruct IH as (r & Hrun & Hnone & Hsome).
    change (for_ (route :: routes) body s) with
      ((x ← body route;
        match x with Some v => mret (Some v) | None => for_ routes body end) s).
    rewrite run_bind. unfold body at 1.
    destruct (routable_inputs (getCaps (route_output route))) as [l|] eqn:Hcaps.
    + case_bool_decide as Hin; simpl.
      * exists r. split; [done|]. split; [|done].
        rewrite Hnone. split.
        -- intros HF. constructor; [by exists l|done].
        -- intros HF. by apply Forall_cons_1 in HF as [_ HF].
      * eexists. split; [reflexivity|]. split; [|by intros v [= <-]].
        split; [done|]. intros [(l' & Hl' & Hl) _]%Forall_cons_1.
        rewrite Hcaps in Hl'. by injection Hl' as <-.
    + simpl. eexists. split; [reflexivity|]. split; [|by intros v [= <-]].
      split; [done|]. intros [(l' & Hl' & _) _]%Forall_cons_1.
      rewrite Hcaps in Hl'. discriminate.
Qed.

(** X12: test_08 reports PASS exactly when every re-entrant candidate's output
    lists its own id among its routable inputs, and FAIL otherwise; in
    particular a candidate whose output has no routable_inputs field gives
    FAIL. *)
Lemma test_08_verdict (t : Test) (s s1 s2 : State W)
    (outs : list Output) (ins : list Input) :
  getOutputList api (set_test t s).2 = (Ok outs, s1) →
  getInputList api s1 = (Ok ins, s2) →
  ∃ r, test_08_no_reentrant_loops api t s = (Ok r, s2)
       ∧ (result_state r = Pass ∨ result_state r = Fail)
       ∧ (result_state r = Pass ↔
            ∀ o i, o ∈ outs → i ∈ ins → getSourceID o = getParent i →
              ∃ l, routable_inputs (getCaps o) = Some l ∧ id_ o ∈ l).
Proof.
  intros Hout Hin. unfold test_08_no_reentrant_loops.
  run_set_test t s. run_ok Hout. run_ok Hin. rewrite run_bind.
  destruct (test_08_loop t (forbiddenRoutes outs ins) s2) as (r & Hrun & Hnone & Hsome).
  cbv zeta in Hrun |- *. rewrite Hrun. clear Hrun.
  assert (Hall : Forall lists_own_output (forbiddenRoutes outs ins) ↔
    ∀ o i, o ∈ outs → i ∈ ins → getSourceID o = getParent i →
      ∃ l, routable_inputs (getCaps o) = Some l ∧ id_ o ∈ l).
  { rewrite Forall_forall. split.
    - intros H o i Ho Hi Hs.
      apply (H {| route_input := i; route_output := o |}).
      by apply elem_of_forbiddenRoutes.
    - intros H route (Ho & Hi & Hs)%elem_of_forbiddenRoutes.
      by apply (H _ _ Ho Hi Hs). }
  destruct r as [v|]; simpl.
  - exists v. split; [done|]. rewrite (Hsome v eq_refl). split; [by right|].
    rewrite <-Hall, <-Hnone. split; intros; discriminate.
  - exists (PASS t). split; [done|]. split; [by left|].
    rewrite <-Hall, <-Hnone. done.
Qed.
End Test08.

(** C1 (the code at the failing input): output "a" is fed by source "src",
    which is also the parent of input "a", and the allow-list of the output
    holds "a": the re-entrant route is not excluded, yet test_08 reports
    PASS, because the id it looks up in the list is that of the output.
    With the allow-list ["b"], which excludes the re-entrant input, it
    reports FAIL. *)
Theorem test_08_passes_reentrant_route :
  let i := Sim.input "a" "src" 1 true [] in
  let i' := Sim.input "b" "elsewhere" 1 true [] in
  let o := Sim.output "a" "src" (Some ["a"]) in
  let o' := Sim.output "a" "src" (Some ["b"]) in
  getSourceID o = getParent i ∧
  (∃ l, routable_inputs (getCaps o) = Some l ∧ id_ i ∈ l) ∧
  (test_08_no_reentrant_loops (Sim.api true) Sim.tester
     (Sim.start (Sim.device [i; i'] [o]))).1 = Ok (PASS Sim.tester) ∧
  (∃ l, routable_inputs (getCaps o') = Some l ∧ id_ i ∉ l) ∧
  (test_08_no_reentrant_loops (Sim.api true) Sim.tester
     (Sim.start (Sim.device [i; i'] [o']))).1 =
    Ok (FAIL Sim.tester
          ("It is possible to create a loop using re-entrant matricies"
           +:+ " between input a and output a")).
Proof.
  repeat split.
  - exists ["a"]. split; [done|]. constructor.
  - exists ["b"]. split; [done|]. by intros [=]%list_elem_of_singleton.
Qed.


(** ** test_13: allow-listed ids that are not input ids *)

Section Removal.
Context {W : Type}.

Lemma occurrences_cons (x y : string) (l : list string) :
  occurrences x (y :: l) = ((if decide (y = x) then 1 else 0) + occurrences x l)%nat.
Proof. unfold occurrences. rewrite filter_cons. by case_decide. Qed.

Lemma remove__None (x : string) (l : list string) :
  remove_ x l = None → occurrences x l = 0%nat.
Proof.
  induction l as [|y l IH]; simpl; [done|].
  rewrite occurrences_cons. case_decide as Hxy; [done|].
  destruct (remove_ x l); [done|]. intros _.
  rewrite decide_False by congruence. by rewrite IH.
Qed.

Lemma remove__Some (x : string) (l l' : list string) :
  remove_ x l = Some l' →
  ∀ y, occurrences y l = ((if decide (x = y) then 1 else 0) + occurrences y l')%nat.
Proof.
  revert l'. induction l as [|z l IH]; intros l'; simpl; [done|].
  case_decide as Hxz.
  - intros [= ->] y. rewrite occurrences_cons. subst z. done.
  - destruct (remove_ x l) as [l0|] eqn:E; [|done]. intros [= <-] y.
    rewrite !occurrences_cons, (IH l0 eq_refl y). lia.
Qed.

Lemma remove_all_covers (allow ids : list string) :
  is_Some (remove_all allow ids) ↔ covers ids allow.
Proof.
  revert ids. induction allow as [|x allow IH]; intros ids; simpl.
  - split; [|by eauto]. intros _ y. unfold occurrences at 1. simpl. lia.
  - destruct (remove_ x ids) as [ids'|] eqn:E; simpl.
    + rewrite IH. pose proof (remove__Some _ _ _ E) as Hocc.
      split; intros H y; specialize (H y); specialize (Hocc y);
        rewrite occurrences_cons in *; lia.
    + apply remove__None in E. split; [by intros [? [=]]|].
      intros H. specialize (H x). rewrite occurrences_cons, decide_True in H by done.
      lia.
Qed.

Lemma for_acc_list_remove (allow ids : list string) (s : State W) :
  for_acc allow ids (λ forbiddenRoutes routableInputID,
    list_remove routableInputID forbiddenRoutes) s =
  match remove_all allow ids with
  | Some l => (Ok l, s)
  | None => (Raise ValueError, s)
  end.
Proof.
  revert ids. induction allow as [|x allow IH]; intros ids; simpl; [done|].
  rewrite run_bind. unfold list_remove at 1.
  destruct (remove_ x ids) as [ids'|]; simpl; [apply IH|done].
Qed.

End Removal.

(** The run of the main loop of test_13 over the constrained outputs: the
    outputs it went through form an initial segment, each of them has its
    allow-list covered by the input ids, the calls made are the submissions
    for them, and an early return is the FAIL for the last of them, made
    right after [checkReject] raised for its forbidden route. *)
Lemma test_13_loop_run {W} (api : Api W) (t : Test) (last_output : option Output)
    (ids : list string) (cs : list ConstrainedOutput) (s s' : State W)
    (ret : option TestResult) :
  for_ cs (λ constrainedOutput,
    forbiddenRoutes ← for_acc (routableInputs constrainedOutput) ids
      (λ forbiddenRoutes routableInputID, list_remove routableInputID forbiddenRoutes);
    if bool_decide (0 < length forbiddenRoutes)%nat
    then
      forbidden0 ← first_item forbiddenRoutes;
      let action :=
        Action_ forbidden0 (OutputId (id_ (constrained_output constrainedOutput))) in
      let activation := addAction action Activation_ in
      try_except (checkReject api activation;; mret None)
        (λ _,
           forbidden0 ← first_item forbiddenRoutes;
           match last_output with
           | Some outputInstance =>
               let msg := forbidden_msg forbidden0 (id_ outputInstance) in
               mret (Some (FAIL t msg))
           | None => raise NameError
           end)
    else mret None) s = (Ok ret, s') →
  ∃ examined rest,
    cs = examined ++ rest
    ∧ Forall (λ c, covers ids (routableInputs c)) examined
    ∧ (log s').*1 = (log s).*1 ++ omap (submission ids) examined
    ∧ (ret = None → rest = [])
    ∧ (∀ v, ret = Some v →
         result_state v = Fail ∧
         ∃ pre c f fr s0 e,
           examined = pre ++ [c]
           ∧ remove_all (routableInputs c) ids = Some (f :: fr)
           ∧ checkReject api
               (addAction (Action_ f (OutputId (id_ (constrained_output c))))
                  Activation_) s0
             = (Raise (NMOSTestException e), s')).
Proof.
  revert s. induction cs as [|c cs IH]; intros s Hrun.
  { injection Hrun as <- <-. exists [], [].
    split; [done|]. split; [constructor|]. split; [by rewrite app_nil_r|].
    split; [done|]. intros v [=]. }
  cbn [for_] in Hrun.
  apply bind_ok_inv in Hrun as (r & s1 & Hc & Hrest).
  apply bind_ok_inv in Hc as (forbidden & sa & Hrem & Hc).
  rewrite for_acc_list_remove in Hrem.
  destruct (remove_all (routableInputs c) ids) as [l|] eqn:E; [|discriminate].
  injection Hrem as <- <-.
  assert (Hcov : covers ids (routableInputs c))
    by (apply remove_all_covers; rewrite E; eauto).
  destruct l as [|f fr].
  - (* nothing is forbidden for this output *)
    injection Hc as <- <-.
    destruct (IH _ Hrest) as (examined & rest & -> & Hall & Hlog & Hnone & Hsome).
    exists (c :: examined), rest. split; [done|]. split; [by constructor|].
    split; [|split; [done|]].
    + cbn [omap list_omap]. unfold submission at 1. by rewrite E.
    + intros v Hv. destruct (Hsome v Hv) as (Hf & pre & c' & f & fr & s0 & e & -> & H').
      split; [done|]. by exists (c :: pre), c', f, fr, s0, e.
  - rewrite bool_decide_true in Hc by (simpl; lia).
    apply bind_ok_inv in Hc as (f0 & sb & Hf & Hc).
    injection Hf as <- <-. cbv zeta in Hc.
    apply try_ok_inv in Hc as [Hc|(r0 & s3 & Hraise & Hc)].
    + (* the device rejected the route *)
      apply bind_ok_inv in Hc as ([] & s2 & Hcr & Hc). injection Hc as <- <-.
      pose proof (call_log api (CheckReject _) _ _ _ Hcr) as Hl.
      destruct (IH _ Hrest) as (examined & rest & -> & Hall & Hlog & Hnone & Hsome).
      exists (c :: examined), rest. split; [done|]. split; [by constructor|].
      split; [|split; [done|]].
      * cbn [omap list_omap]. unfold submission at 1. rewrite E.
        by rewrite Hlog, Hl, <-(assoc_L (++)).
      * intros v Hv.
        destruct (Hsome v Hv) as (Hfail & pre & c' & f' & fr' & s0 & e & -> & H').
        split; [done|]. by exists (c :: pre), c', f', fr', s0, e.
    + (* the device accepted the route *)
      rewrite run_bind in Hraise.
      destruct (checkReject api _ s) as [[u|e] s4] eqn:Hcr; [discriminate|].
      injection Hraise as -> ->.
      pose proof (call_log api (CheckReject _) _ _ _ Hcr) as Hl.
      apply bind_ok_inv in Hc as (f1 & sc & Hf1 & Hc). injection Hf1 as <- <-.
      destruct last_output as [o|]; [|discriminate]. injection Hc as <- <-.
      injection Hrest as <- <-.
      exists [c], cs. split; [done|]. split; [by repeat constructor|].
      split; [|split; [done|]].
      * cbn [omap list_omap]. unfold submission. by rewrite E.
      * intros v [= <-]. split; [done|]. by exists [], c, f, fr, s, r0.
Qed.

(** C9 (as amended): with the outputs and inputs fetched, test_13 ends in a
    verdict only if every id listed in the routable_inputs of each
    constrained output it examined occurs among the input ids at least as
    many times.  The outputs it examined are an initial segment of the
    constrained outputs, and after fetching the inputs its helper calls are
    exactly the submissions for them, in order.  It examines all constrained
    outputs unless the verdict is FAIL; FAIL is returned at the last examined
    output, right after [checkReject] raised for its forbidden route, so the
    allow-lists of the outputs after it play no part.  When the allow-list
    of the first constrained output names an id that the input ids lack,
    [forbiddenRoutes.remove] raises ValueError and the test ends without a
    verdict. *)
Theorem test_13_verdict_needs_known_ids {W} (api : Api W) (t : Test)
    (s s1 s2 : State W) (outs : list Output) (ins : list Input) :
  getOutputList api (set_test t s).2 = (Ok outs, s1) →
  getInputList api s1 = (Ok ins, s2) →
  (∀ r s',
     test_13_violate_routing_constraints_rejected api t s = (Ok r, s') →
     ∃ examined rest,
       constrainedOutputList outs = examined ++ rest
       ∧ Forall (λ c, covers (inputIDList ins) (routableInputs c)) examined
       ∧ (constrainedOutputList outs ≠ [] →
            (log s').*1 =
              (log s2).*1 ++ omap (submission (inputIDList ins)) examined)
       ∧ (result_state r ≠ Fail → rest = [])
       ∧ (result_state r = Fail →
            ∃ pre c f fr s0 e,
              examined = pre ++ [c]
              ∧ remove_all (routableInputs c) (inputIDList ins) = Some (f :: fr)
              ∧ checkReject api
                  (addAction (Action_ f (OutputId (id_ (constrained_output c))))
                     Activation_) s0
                = (Raise (NMOSTestException e), s'))) ∧
  (∀ c cs,
     constrainedOutputList outs = c :: cs →
     ¬ covers (inputIDList ins) (routableInputs c) →
     test_13_violate_routing_constraints_rejected api t s = (Raise ValueError, s2)).
Proof.
  intros Hout Hin. split.
  - intros r s'. unfold test_13_violate_routing_constraints_rejected.
    run_set_test t s. run_ok Hout. cbv zeta.
    case_bool_decide as Hlen.
    { intros [= <- <-]. exists [], [].
      destruct (constrainedOutputList outs); [|done].
      split; [done|]. split; [constructor|]. split; [done|].
      split; [done|]. discriminate. }
    run_ok Hin. intros H.
    apply bind_ok_inv in H as (ret & s3 & Hloop & H).
    apply test_13_loop_run in Hloop
      as (examined & rest & Hsplit & Hall & Hlog & Hnone & Hsome).
    exists examined, rest. split; [done|]. split; [done|].
    destruct ret as [v|]; simpl in H; injection H as <- <-.
    + destruct (Hsome v eq_refl) as [Hfail Hlast].
      split; [done|]. split; [by rewrite Hfail|done].
    + split; [done|]. split; [by intros _; apply Hnone|discriminate].
  - intros c cs Hcs Hnot. unfold test_13_violate_routing_constraints_rejected.
    run_set_test t s. run_ok Hout. cbv zeta. rewrite Hcs.
    rewrite bool_decide_false by done. run_ok Hin.
    rewrite run_bind. simpl for_. rewrite run_bind, run_bind.
    rewrite for_acc_list_remove.
    destruct (remove_all _ _) as [l|] eqn:E; [|done].
    exfalso. apply Hnot, remove_all_covers. by eauto.
Qed.

(** C9 (as stated) fails: the first constrained output has a forbidden
    route that the device accepts, so test_13 returns FAIL before it looks at
    the second output, whose allow-list names an id that is not an input
    id. *)
Lemma test_13_fails_before_unknown_id :
  ¬ (∀ (d : Sim.Device) (r : TestResult) (s' : State Sim.Device),
       test_13_violate_routing_constraints_rejected (Sim.api true) Sim.tester
         (Sim.start d) = (Ok r, s') →
       Forall (λ c, covers (inputIDList (Sim.inputs d)) (routableInputs c))
         (constrainedOutputList (Sim.outputs d))).
Proof.
  intros H.
  specialize (H (Sim.with_answers
                   (Sim.device [Sim.input "in" "p" 1 true []]
                      [Sim.output "out1" "src" (Some []);
                       Sim.output "out2" "src" (Some ["unknown"])])
                   false true) _ _ eq_refl).
  apply Forall_cons_1 in H as [_ H]. apply Forall_cons_1 in H as [H _].
  specialize (H "unknown"). vm_compute in H. lia.
Qed.

Lemma test_13_verdict_needs_known_ids_witness :
  test_13_violate_routing_constraints_rejected (Sim.api true) Sim.tester
    (Sim.start (Sim.device [Sim.input "in" "p" 1 true []]
                  [Sim.output "out" "src" (Some ["unknown"])])) =
  (Raise ValueError,
   (getInputList (Sim.api true)
      (getOutputList (Sim.api true)
         (set_test Sim.tester
            (Sim.start (Sim.device [Sim.input "in" "p" 1 true []]
                          [Sim.output "out" "src" (Some ["unknown"])]))).2).2).2)
  ∧ ∃ examined rest,
      constrainedOutputList (Sim.outputs Sim.lenient) = examined ++ rest
      ∧ Forall (λ c, covers (inputIDList (Sim.inputs Sim.lenient)) (routableInputs c))
          examined
      ∧ (constrainedOutputList (Sim.outputs Sim.lenient) ≠ [] →
           (log (test_13_violate_routing_constraints_rejected (Sim.api true)
                   Sim.tester (Sim.start Sim.lenient)).2).*1 =
           (log (getInputList (Sim.api true)
                   (getOutputList (Sim.api true)
                      (set_test Sim.tester (Sim.start Sim.lenient)).2).2).2).*1
           ++ omap (submission (inputIDList (Sim.inputs Sim.lenient))) examined)
      ∧ (Fail ≠ Fail → rest = [])
      ∧ (Fail = Fail →
           ∃ pre c f fr s0 e,
             examined = pre ++ [c]
             ∧ remove_all (routableInputs c) (inputIDList (Sim.inputs Sim.lenient))
               = Some (f :: fr)
             ∧ checkReject (Sim.api true)
                 (addAction (Action_ f (OutputId (id_ (constrained_output c))))
                    Activation_) s0
               = (Raise (NMOSTestException e),
                  (test_13_violate_routing_constraints_rejected (Sim.api true)
                     Sim.tester (Sim.start Sim.lenient)).2)).
Proof.
  split.
  - apply (proj2 (test_13_verdict_needs_known_ids (Sim.api true) Sim.tester
                    (Sim.start (Sim.device [Sim.input "in" "p" 1 true []]
                                  [Sim.output "out" "src" (Some ["unknown"])]))
                    _ _ _ _ eq_refl eq_refl) _ _ eq_refl).
    intros H. specialize (H "unknown"). vm_compute in H. lia.
  - exact (proj1 (test_13_verdict_needs_known_ids (Sim.api true) Sim.tester
                    (Sim.start Sim.lenient) _ _ _ _ eq_refl eq_refl)
             (FAIL Sim.tester (forbidden_msg "in" "out2")) _ eq_refl).
Defined.


(** ** Concrete runs of the theorems above *)

Lemma test_01_pass_iff_io_matches_witness :
  ((test_01_io_content_match (Sim.api true) Sim.tester (Sim.start Sim.sound)).1
     = Ok (PASS Sim.tester)
   ↔ compare_json (Sim.api true)
       (io_reconstruction (Sim.api true) [Sim.an_input] [Sim.an_output]) JNull
     = true) ∧
  (compare_json (Sim.api true)
     (io_reconstruction (Sim.api true) [Sim.an_input] [Sim.an_output]) JNull
   = false →
   (test_01_io_content_match (Sim.api true) Sim.tester (Sim.start Sim.sound)).1 =
     Ok (FAIL Sim.tester "IO Resource does not correctly reflect the API resources")).
Proof.
  apply (test_01_pass_iff_io_matches (Sim.api true) Sim.tester
           (Sim.start Sim.sound) _ _ _ _ _ _ eq_refl eq_refl eq_refl).
Defined.

Lemma check_delayed_activation_compares_then_waits_witness :
  (check_delayed_activation (Sim.api true) "2:0" SCHEDULED_RELATIVE_ACTIVATION
     (set_test Sim.tester (Sim.start Sim.hasty)).2).1 =
    Raise (NMOSTestException
             (FAIL Sim.tester "Scheduled Activation completed immediately"))
  ∧
  (check_delayed_activation (Sim.api true) "2:0" SCHEDULED_RELATIVE_ACTIVATION
     (set_test Sim.tester (Sim.start Sim.sound)).2).1 = Ok ().
Proof.
  split.
  - rewrite (proj1 (proj1
      (check_delayed_activation_compares_then_waits (Sim.api true) "2:0"
         SCHEDULED_RELATIVE_ACTIVATION Sim.tester
         (set_test Sim.tester (Sim.start Sim.hasty)).2
         _ _ _ _ _ _ _ _ _ _ _
         eq_refl eq_refl eq_refl eq_refl eq_refl eq_refl eq_refl) eq_refl)).
    reflexivity.
  - rewrite (proj2
      (check_delayed_activation_compares_then_waits (Sim.api true) "2:0"
         SCHEDULED_RELATIVE_ACTIVATION Sim.tester
         (set_test Sim.tester (Sim.start Sim.sound)).2
         _ _ _ _ _ _ _ _ _ _ _
         eq_refl eq_refl eq_refl eq_refl eq_refl eq_refl eq_refl) eq_refl).
    reflexivity.
Defined.

Lemma empty_output_list_raises_IndexError_witness :
  (test_02_immediate_activation (Sim.api true) Sim.tester
     (Sim.start Sim.no_outputs)).1 = Raise IndexError ∧
  (test_06_locking_response (Sim.api true) Sim.tester
     (Sim.start Sim.no_outputs)).1 = Raise IndexError ∧
  (test_05_delete_activations (Sim.api true) Sim.tester
     (Sim.start Sim.no_outputs)).1 = Raise IndexError ∧
  (check_delayed_activation (Sim.api true) "2:0" SCHEDULED_RELATIVE_ACTIVATION
     (Sim.start Sim.no_outputs)).1 = Raise IndexError ∧
  (test_03_relative_activation (Sim.api true) Sim.tester
     (Sim.start Sim.no_outputs)).1 = Raise IndexError ∧
  (test_04_absolute_activation (Sim.api true) Sim.tester
     (Sim.start Sim.no_outputs)).1 = Raise IndexError.
Proof.
  pose proof (empty_output_list_raises_IndexError (Sim.api true) Sim.tester
                (Sim.start Sim.no_outputs)) as (H26 & H5 & Hcda & H3 & H4).
  destruct (H26 _ eq_refl) as [H2 H6].
  split; [exact (f_equal fst H2)|].
  split; [exact (f_equal fst H6)|].
  split; [exact (f_equal fst (H5 _ _ eq_refl eq_refl))|].
  split; [exact (f_equal fst (Hcda "2:0" SCHEDULED_RELATIVE_ACTIVATION
                                _ _ _ _ eq_refl eq_refl eq_refl))|].
  split; [exact (f_equal fst (H3 _ _ _ _ eq_refl eq_refl eq_refl))|].
  exact (f_equal fst (H4 _ _ _ _ _ _ eq_refl eq_refl eq_refl eq_refl)).
Defined.


(** * Further properties of the test cases *)

(** ** test_11 and test_12: resources without channels *)

Section Channels.
Context {W : Type} (api : Api W).

Lemma getChannelList_nonempty {A} `{Resource A} (x : A) (s : State W) :
  channels_of x ≠ [] → getChannelList api x s = (Ok (channels_of x), s).
Proof. unfold getChannelList. by destruct (channels_of x). Qed.

Lemma getChannelList_empty {A} `{Resource A} (x : A) (s : State W) :
  channels_of x = [] → ∃ e, getChannelList api x s = (Raise e, s).
Proof.
  intros Hx. unfold getChannelList. rewrite Hx, run_bind.
  unfold current_test. destruct (test (config s)); eauto.
Qed.

(** The loop of test_11 and test_12 runs to its end when every resource has
    a channel, and otherwise ends in an exception or an early return. *)
Lemma channels_loop {A} `{Resource A} (t : Test) (msg : string) (xs : list A)
    (s : State W) :
  (Forall (λ x, channels_of x ≠ []) xs →
     for_ xs (λ x,
       channels ← getChannelList api x;
       if bool_decide (length channels = 0%nat)
       then mret (Some (FAIL t msg))
       else mret None) s = (Ok None, s)) ∧
  (∀ s', for_ xs (λ x,
       channels ← getChannelList api x;
       if bool_decide (length channels = 0%nat)
       then mret (Some (FAIL t msg))
       else mret None) s = (Ok None, s') →
     Forall (λ x, channels_of x ≠ []) xs).
Proof.
  induction xs as [|x xs [IH1 IH2]]; [by split|]. split.
  - intros [Hx Hxs]%Forall_cons_1. cbn [for_]. rewrite run_bind.
    rewrite (run_bind_ok _ _ _ _ _ (getChannelList_nonempty x s Hx)).
    rewrite bool_decide_false by (by rewrite length_zero_iff_nil).
    rewrite run_ret. by apply IH1.
  - intros s' Hrun. cbn [for_] in Hrun.
    apply bind_ok_inv in Hrun as (r & s1 & Hx & Hrest).
    apply bind_ok_inv in Hx as (channels & s2 & Hget & Hx).
    destruct (channels_of x) as [|c cs] eqn:Hc.
    { destruct (getChannelList_empty x s Hc) as (e & He). congruence. }
    assert (Hne : channels_of x ≠ []) by (by rewrite Hc).
    rewrite (getChannelList_nonempty x s Hne) in Hget.
    injection Hget as <- <-. rewrite Hc in Hx. simpl in Hx.
    injection Hx as <- <-.
    constructor; [done|]. by apply (IH2 s').
Qed.
End Channels.

(** X1: with the input list fetched, test_11 reports PASS exactly when
    every fetched input has at least one channel, and then it has made no
    helper call beyond fetching the list. *)
Theorem test_11_verdict {W} (api : Api W) (t : Test) (s s1 : State W)
    (ins : list Input) :
  getInputList api (set_test t s).2 = (Ok ins, s1) →
  (Forall (λ i, channels_of i ≠ []) ins →
     test_11_inputs_have_channels api t s = (Ok (PASS t), s1)) ∧
  ((test_11_inputs_have_channels api t s).1 = Ok (PASS t) →
     Forall (λ i, channels_of i ≠ []) ins).
Proof.
  intros Hin.
  destruct (channels_loop api t "Inputs must have at least one channel" ins s1)
    as [Hall Hnone].
  unfold test_11_inputs_have_channels. run_set_test t s. run_ok Hin. split.
  - intros HF. by rewrite (run_bind_ok _ _ _ _ _ (Hall HF)).
  - rewrite run_bind.
    destruct (for_ ins _ s1) as [[[v|]|e] s2] eqn:Hloop; simpl.
    + intros [= Hv]. apply (f_equal result_state) in Hv. simpl in Hv.
      apply (for__returned (λ v, result_state v = Fail) _ _) in Hloop;
        [congruence|].
      clear. intros x s v s' _ H.
      apply bind_ok_inv in H as (channels & s1 & _ & H).
      case_bool_decide; [|discriminate]. by injection H as <- _.
    + intros _. by apply (Hnone s2).
    + discriminate.
Qed.

Lemma test_11_verdict_witness :
  test_11_inputs_have_channels (Sim.api true) Sim.tester (Sim.start Sim.sound)
    = (Ok (PASS Sim.tester),
       (getInputList (Sim.api true)
          (set_test Sim.tester (Sim.start Sim.sound)).2).2)
  ∧ Forall (λ i, channels_of i ≠ []) [Sim.an_input].
Proof.
  split.
  - apply (proj1 (test_11_verdict (Sim.api true) Sim.tester
                    (Sim.start Sim.sound) _ _ eq_refl)).
    constructor; [discriminate|constructor].
  - apply (proj2 (test_11_verdict (Sim.api true) Sim.tester
                    (Sim.start Sim.sound) _ _ eq_refl)).
    reflexivity.
Defined.

(** X2: with the output list fetched, test_12 reports PASS exactly when
    every fetched output has at least one channel, and then it has made no
    helper call beyond fetching the list. *)
Theorem test_12_verdict {W} (api : Api W) (t : Test) (s s1 : State W)
    (outs : list Output) :
  getOutputList api (set_test t s).2 = (Ok outs, s1) →
  (Forall (λ o, channels_of o ≠ []) outs →
     test_12_outputs_have_channels api t s = (Ok (PASS t), s1)) ∧
  ((test_12_outputs_have_channels api t s).1 = Ok (PASS t) →
     Forall (λ o, channels_of o ≠ []) outs).
Proof.
  intros Hout.
  destruct (channels_loop api t "Outputs must have at least one channel" outs s1)
    as [Hall Hnone].
  unfold test_12_outputs_have_channels. run_set_test t s. run_ok Hout. split.
  - intros HF. by rewrite (run_bind_ok _ _ _ _ _ (Hall HF)).
  - rewrite run_bind.
    destruct (for_ outs _ s1) as [[[v|]|e] s2] eqn:Hloop; simpl.
    + intros [= Hv]. apply (f_equal result_state) in Hv. simpl in Hv.
      apply (for__returned (λ v, result_state v = Fail) _ _) in Hloop;
        [congruence|].
      clear. intros x s v s' _ H.
      apply bind_ok_inv in H as (channels & s1 & _ & H).
      case_bool_decide; [|discriminate]. by injection H as <- _.
    + intros _. by apply (Hnone s2).
    + discriminate.
Qed.

Lemma test_12_verdict_witness :
  test_12_outputs_have_channels (Sim.api true) Sim.tester (Sim.start Sim.sound)
    = (Ok (PASS Sim.tester),
       (getOutputList (Sim.api true)
          (set_test Sim.tester (Sim.start Sim.sound)).2).2)
  ∧ Forall (λ o, channels_of o ≠ []) [Sim.an_output].
Proof.
  split.
  - apply (proj1 (test_12_verdict (Sim.api true) Sim.tester
                    (Sim.start Sim.sound) _ _ eq_refl)).
    constructor; [discriminate|constructor].
  - apply (proj2 (test_12_verdict (Sim.api true) Sim.tester
                    (Sim.start Sim.sound) _ _ eq_refl)).
    reflexivity.
Defined.

(** ** test_07: the queries it makes *)

Section Queries.
Context {W : Type} (api : Api W).

Lemma call_returns (c : Call) (s : State W) :
  returns_normally api c →
  ∃ r s', call api c s = (Ok r, s') ∧ (log s').*1 = (log s).*1 ++ [c].
Proof.
  intros Hc. destruct (Hc (config s) (world s)) as (r & w' & Hp).
  unfold call. rewrite Hp. eexists _, _. split; [reflexivity|].
  simpl. by rewrite fmap_app.
Qed.

Lemma for_each_calls {A} (calls_of : A → list Call) (body : A → M W unit)
    (xs : list A) :
  (∀ x s, x ∈ xs →
     ∃ s', body x s = (Ok (), s') ∧ (log s').*1 = (log s).*1 ++ calls_of x) →
  ∀ s, ∃ s', for_each xs body s = (Ok (), s')
             ∧ (log s').*1 = (log s).*1 ++ (xs ≫= calls_of).
Proof.
  unfold for_each.
  induction xs as [|x xs IH]; intros Hbody s.
  - exists s. split; [done|]. by rewrite app_nil_r.
  - destruct (Hbody x s) as (s1 & Hx & Hl1); [by left|].
    destruct (IH (λ y s0 Hy, Hbody y s0 (list_elem_of_further _ _ _ Hy)) s1)
      as (s2 & Hxs & Hl2).
    exists s2. split.
    + cbn [for_acc]. by rewrite (run_bind_ok _ _ _ _ _ Hx).
    + by rewrite Hl2, Hl1, bind_cons, (assoc_L (++)).
Qed.
End Queries.

(** X4: when every fetched output has at least one channel and the Active
    resource answers every query, test_07 asks for the input channel index
    and then the input channel name of every channel of every output, output
    by output and channel by channel, makes no other call, and reports
    PASS. *)
Theorem test_07_queries_every_channel {W} (api : Api W) (t : Test)
    (s s1 : State W) (outs : list Output) :
  getOutputList api (set_test t s).2 = (Ok outs, s1) →
  Forall (λ o, channels_of o ≠ []) outs →
  (∀ o ch, returns_normally api (GetInputChannelIndex o ch)) →
  (∀ o ch, returns_normally api (GetInputChannelName o ch)) →
  ∃ s', test_07_unrouted_channels_null api t s = (Ok (PASS t), s')
        ∧ (log s').*1 = (log s1).*1 ++ (outs ≫= channel_queries).
Proof.
  intros Hout Hch Hidx Hname. unfold test_07_unrouted_channels_null.
  run_set_test t s. run_ok Hout.
  match goal with
  | |- ∃ s', (for_each outs ?body ≫= _) s1 = _ ∧ _ =>
      destruct (for_each_calls channel_queries body outs) with (s := s1)
        as (s2 & Hrun & Hlog)
  end.
  - intros o s0 Ho.
    rewrite Forall_forall in Hch.
    rewrite (run_bind_ok _ _ _ _ _ (getChannelList_nonempty api o s0 (Hch o Ho))).
    unfold channel_queries.
    apply for_each_calls. intros ch s3 _.
    destruct (call_returns api (GetInputChannelIndex o ch) s3 (Hidx o ch))
      as (idx & s4 & Hi & Hli).
    destruct (call_returns api (GetInputChannelName o ch) s4 (Hname o ch))
      as (name & s5 & Hn & Hln).
    exists s5. split.
    + unfold getInputChannelIndex, getInputChannelName.
      run_ok Hi. run_ok Hn.
      destruct (_ || _); [destruct (index_ne_name _ _)|]; reflexivity.
    + by rewrite Hln, Hli, <-(assoc_L (++)).
  - exists s2. split; [|done]. by rewrite (run_bind_ok _ _ _ _ _ Hrun).
Qed.

Lemma test_07_queries_every_channel_witness :
  ∃ s', test_07_unrouted_channels_null (Sim.api true) Sim.tester
          (Sim.start Sim.sound) = (Ok (PASS Sim.tester), s')
        ∧ (log s').*1 =
          [GetOutputList] ++ ([Sim.an_output] ≫= channel_queries).
Proof.
  apply (test_07_queries_every_channel (Sim.api true) Sim.tester
           (Sim.start Sim.sound) _ _ eq_refl).
  - constructor; [discriminate|constructor].
  - intros o ch cfg w. eexists _, _. reflexivity.
  - intros o ch cfg w. eexists _, _. reflexivity.
Defined.

(** ** test_13: the lists it builds and the verdicts it reaches *)

Section Test13Lists.
Context {W : Type} (api : Api W).

Lemma constrainedOutputList_omap (outs : list Output) :
  constrainedOutputList outs =
  omap (λ o, (λ l, {| constrained_output := o; routableInputs := l |})
               <$> routable_inputs (getCaps o)) outs.
Proof.
  unfold constrainedOutputList.
  enough (Hgen : ∀ acc,
    foldl (λ acc outputInstance,
      match routable_inputs (getCaps outputInstance) with
      | None => acc
      | Some l => acc ++ [{| constrained_output := outputInstance;
                             routableInputs := l |}]
      end) acc outs =
    acc ++ omap (λ o, (λ l, {| constrained_output := o; routableInputs := l |})
                        <$> routable_inputs (getCaps o)) outs) by apply Hgen.
  induction outs as [|o outs IH]; intros acc; simpl.
  - by rewrite app_nil_r.
  - rewrite IH. destruct (routable_inputs (getCaps o)); simpl; [|done].
    by rewrite <-(assoc_L (++)).
Qed.

Lemma inputIDList_fmap (ins : list Input) : inputIDList ins = id_ <$> ins.
Proof.
  unfold inputIDList.
  enough (Hgen : ∀ acc : list string,
    foldl (λ acc inputInstance, acc ++ [id_ inputInstance]) acc ins
    = acc ++ (id_ <$> ins)) by apply Hgen.
  induction ins as [|i ins IH]; intros acc; simpl.
  - by rewrite app_nil_r.
  - by rewrite IH, <-(assoc_L (++)).
Qed.

Lemma remove__sublist (x : string) (l l' : list string) :
  remove_ x l = Some l' → sublist l' l.
Proof.
  revert l'. induction l as [|y l IH]; intros l'; simpl; [done|].
  case_decide.
  - intros [= ->]. by apply sublist_cons.
  - destruct (remove_ x l) as [l0|]; [|done]. intros [= <-].
    apply sublist_skip. by apply IH.
Qed.

Lemma remove__elem_of (x : string) (l : list string) :
  x ∈ l → ∃ l', remove_ x l = Some l' ∧ l ≡ₚ x :: l'.
Proof.
  induction l as [|y l IH]; [by intros ?%elem_of_nil|].
  intros Hx. simpl. case_decide as Hxy.
  - subst y. by exists l.
  - apply elem_of_cons in Hx as [?|Hx]; [done|].
    destruct (IH Hx) as (l' & -> & Hp). exists (y :: l'). split; [done|].
    by rewrite Hp, Permutation_swap.
Qed.

Lemma remove_all_result (allow ids l : list string) :
  remove_all allow ids = Some l →
  (∀ y, occurrences y ids = (occurrences y allow + occurrences y l)%nat)
  ∧ sublist l ids.
Proof.
  revert ids. induction allow as [|x allow IH]; intros ids; simpl.
  - intros [= ->]. split; [|done]. intros y.
    change (occurrences y []) with 0%nat. lia.
  - destruct (remove_ x ids) as [ids'|] eqn:E; [|done]. simpl. intros Hrest.
    destruct (IH _ Hrest) as [Hocc Hsub]. split.
    + intros y. rewrite (remove__Some _ _ _ E y), occurrences_cons, Hocc.
      repeat case_decide; try congruence; lia.
    + etrans; [exact Hsub|]. by eapply remove__sublist.
Qed.

Lemma remove_all_permutation (allow ids : list string) :
  allow ≡ₚ ids → remove_all allow ids = Some [].
Proof.
  revert ids. induction allow as [|x allow IH]; intros ids Hp; simpl.
  - by apply Permutation_nil_l in Hp as ->.
  - destruct (remove__elem_of x ids) as (ids' & -> & Hids).
    { rewrite <-Hp. by left. }
    simpl. apply IH. apply (Permutation_cons_inv (a := x)). by rewrite Hp.
Qed.

Lemma test_13_loop_nothing_forbidden (t : Test) (last_output : option Output)
    (ids : list string) (cs : list ConstrainedOutput) (s : State W) :
  Forall (λ c, remove_all (routableInputs c) ids = Some []) cs →
  for_ cs (λ constrainedOutput,
    forbiddenRoutes ← for_acc (routableInputs constrainedOutput) ids
      (λ forbiddenRoutes routableInputID, list_remove routableInputID forbiddenRoutes);
    if bool_decide (0 < length forbiddenRoutes)%nat
    then
      forbidden0 ← first_item forbiddenRoutes;
      let action :=
        Action_ forbidden0 (OutputId (id_ (constrained_output constrainedOutput))) in
      let activation := addAction action Activation_ in
      try_except (checkReject api activation;; mret None)
        (λ _,
           forbidden0 ← first_item forbiddenRoutes;
           match last_output with
           | Some outputInstance =>
               let msg := forbidden_msg forbidden0 (id_ outputInstance) in
               mret (Some (FAIL t msg))
           | None => raise NameError
           end)
    else mret None) s = (Ok None, s).
Proof.
  induction 1 as [|c cs Hc _ IH]; [done|].
  cbn [for_]. rewrite run_bind, run_bind, for_acc_list_remove, Hc. simpl.
  apply IH.
Qed.
End Test13Lists.

(** X5: the removal loop of test_13 ([forbiddenRoutes.remove] for each
    allow-listed id, starting from a copy of the input ids) raises ValueError
    exactly when some id is allow-listed more often than it occurs among the
    input ids; otherwise it leaves each id as often as it occurs among the
    input ids minus the times it is allow-listed, in the order of the input
    ids. *)
Theorem removal_loop_result {W} (allow ids : list string) (s : State W) :
  (covers ids allow →
     ∃ l, for_acc allow ids (λ forbiddenRoutes routableInputID,
            list_remove routableInputID forbiddenRoutes) s = (Ok l, s)
          ∧ (∀ y, occurrences y l = (occurrences y ids - occurrences y allow)%nat)
          ∧ sublist l ids) ∧
  (¬ covers ids allow →
     for_acc allow ids (λ forbiddenRoutes routableInputID,
       list_remove routableInputID forbiddenRoutes) s = (Raise ValueError, s)).
Proof.
  rewrite for_acc_list_remove. split.
  - intros [l Hl]%remove_all_covers. rewrite Hl. exists l. split; [done|].
    destruct (remove_all_result _ _ _ Hl) as [Hocc Hsub]. split; [|done].
    intros y. rewrite (Hocc y). lia.
  - intros Hnot. destruct (remove_all allow ids) as [l|] eqn:E; [|done].
    exfalso. apply Hnot, remove_all_covers. by eauto.
Qed.

Lemma removal_loop_result_witness :
  (∃ l, for_acc ["b"] ["a"; "b"; "c"] (λ forbiddenRoutes routableInputID,
          list_remove routableInputID forbiddenRoutes) (Sim.start Sim.sound)
        = (Ok l, Sim.start Sim.sound)
        ∧ (∀ y, occurrences y l
                = (occurrences y ["a"; "b"; "c"] - occurrences y ["b"])%nat)
        ∧ sublist l ["a"; "b"; "c"])
  ∧ for_acc ["b"; "b"] ["a"; "b"; "c"] (λ forbiddenRoutes routableInputID,
      list_remove routableInputID forbiddenRoutes) (Sim.start Sim.sound)
    = (Raise ValueError, Sim.start Sim.sound).
Proof.
  split.
  - apply (proj1 (removal_loop_result ["b"] ["a"; "b"; "c"] (Sim.start Sim.sound))).
    apply remove_all_covers. vm_compute. eauto.
  - apply (proj2 (removal_loop_result ["b"; "b"] ["a"; "b"; "c"]
                    (Sim.start Sim.sound))).
    intros H. specialize (H "b"). vm_compute in H. lia.
Defined.

(** X6: when no fetched output has a routable_inputs field, test_13 reports
    NA ("no outputs have routing constraints set") straight after fetching
    the outputs, without fetching the inputs or submitting anything. *)
Theorem test_13_NA_without_constraints {W} (api : Api W) (t : Test)
    (s s1 : State W) (outs : list Output) :
  getOutputList api (set_test t s).2 = (Ok outs, s1) →
  Forall (λ o, routable_inputs (getCaps o) = None) outs →
  test_13_violate_routing_constraints_rejected api t s =
    (Ok (NA t "Could not test - no outputs have routing constraints set."), s1).
Proof.
  intros Hout Hnone. unfold test_13_violate_routing_constraints_rejected.
  run_set_test t s. run_ok Hout. cbv zeta.
  replace (constrainedOutputList outs) with (@nil ConstrainedOutput); [done|].
  rewrite constrainedOutputList_omap. symmetry. clear Hout.
  induction Hnone as [|o outs Ho _ IH]; simpl; [done|].
  rewrite Ho. exact IH.
Qed.

Lemma test_13_NA_without_constraints_witness :
  test_13_violate_routing_constraints_rejected (Sim.api true) Sim.tester
    (Sim.start Sim.sound) =
  (Ok (NA Sim.tester "Could not test - no outputs have routing constraints set."),
   (getOutputList (Sim.api true) (set_test Sim.tester (Sim.start Sim.sound)).2).2).
Proof.
  apply (test_13_NA_without_constraints (Sim.api true) Sim.tester
           (Sim.start Sim.sound) _ _ eq_refl).
  constructor; [reflexivity|constructor].
Defined.

(** X7: when some output is constrained and the allow-list of every
    constrained output is a rearrangement of the fetched input ids, no
    route is forbidden: test_13 reports NA ("no route is forbidden") after
    fetching the outputs and the inputs, and submits nothing. *)
Theorem test_13_NA_nothing_forbidden {W} (api : Api W) (t : Test)
    (s s1 s2 : State W) (outs : list Output) (ins : list Input) :
  getOutputList api (set_test t s).2 = (Ok outs, s1) →
  getInputList api s1 = (Ok ins, s2) →
  Exists (λ o, is_Some (routable_inputs (getCaps o))) outs →
  Forall (λ o, ∀ l, routable_inputs (getCaps o) = Some l → l ≡ₚ id_ <$> ins) outs →
  test_13_violate_routing_constraints_rejected api t s =
    (Ok (NA t "Could not test - no route is forbidden."), s2).
Proof.
  intros Hout Hin Hsome Hall. unfold test_13_violate_routing_constraints_rejected.
  run_set_test t s. run_ok Hout. cbv zeta.
  rewrite bool_decide_false.
  2:{ rewrite constrainedOutputList_omap. clear -Hsome.
      induction Hsome as [o outs [l Hl]|o outs _ IH]; simpl.
      - by rewrite Hl.
      - destruct (routable_inputs (getCaps o)); simpl; [done|exact IH]. }
  run_ok Hin. rewrite run_bind, test_13_loop_nothing_forbidden; [done|].
  rewrite constrainedOutputList_omap, inputIDList_fmap. clear -Hall.
  induction Hall as [|o outs Ho _ IH]; simpl; [done|].
  destruct (routable_inputs (getCaps o)) as [l|] eqn:E; simpl; [|exact IH].
  constructor; [|exact IH]. simpl. by apply remove_all_permutation, Ho.
Qed.

Lemma test_13_NA_nothing_forbidden_witness :
  test_13_violate_routing_constraints_rejected (Sim.api true) Sim.tester
    (Sim.start (Sim.device [Sim.input "a" "p" 1 true []; Sim.input "b" "p" 1 true []]
                  [Sim.output "out" "src" (Some ["b"; "a"])])) =
  (Ok (NA Sim.tester "Could not test - no route is forbidden."),
   (getInputList (Sim.api true)
      (getOutputList (Sim.api true)
         (set_test Sim.tester
            (Sim.start (Sim.device
                          [Sim.input "a" "p" 1 true []; Sim.input "b" "p" 1 true []]
                          [Sim.output "out" "src" (Some ["b"; "a"])]))).2).2).2).
Proof.
  apply (test_13_NA_nothing_forbidden (Sim.api true) Sim.tester
           (Sim.start (Sim.device
                         [Sim.input "a" "p" 1 true []; Sim.input "b" "p" 1 true []]
                         [Sim.output "out" "src" (Some ["b"; "a"])]))
           _ _ _ _ eq_refl eq_refl).
  - left. by eexists.
  - constructor; [|constructor]. intros l [= <-]. apply Permutation_swap.
Defined.


(** X8: when the device accepts the forbidden route found for the first
    constrained output ([checkReject] raises), test_13 reports FAIL, and the
    output id in its message is that of the last fetched output, whichever
    output the route was submitted for.  [f] is the first input id left once
    the allow-listed ids are removed. *)
Theorem test_13_FAIL_names_last_output {W} (api : Api W) (t : Test)
    (s s1 s2 s3 : State W) (outs : list Output) (ins : list Input)
    (c : ConstrainedOutput) (cs : list ConstrainedOutput)
    (f : string) (rest : list string) (e : TestResult) :
  getOutputList api (set_test t s).2 = (Ok outs, s1) →
  getInputList api s1 = (Ok ins, s2) →
  constrainedOutputList outs = c :: cs →
  remove_all (routableInputs c) (inputIDList ins) = Some (f :: rest) →
  checkReject api
    (addAction (Action_ f (OutputId (id_ (constrained_output c)))) Activation_) s2
    = (Raise (NMOSTestException e), s3) →
  ∃ o, last outs = Some o ∧
    test_13_violate_routing_constraints_rejected api t s =
      (Ok (FAIL t (forbidden_msg f (id_ o))), s3).
Proof.
  intros Hout Hin Hcs Hrem Hrej.
  destruct (last outs) as [o|] eqn:Hlast.
  2:{ apply last_None in Hlast. subst outs. discriminate Hcs. }
  exists o. split; [done|].
  unfold test_13_violate_routing_constraints_rejected.
  run_set_test t s. run_ok Hout. cbv zeta. rewrite Hcs, Hlast.
  rewrite bool_decide_false by done. run_ok Hin.
  rewrite run_bind. cbn [for_]. rewrite run_bind, run_bind.
  rewrite for_acc_list_remove, Hrem.
  rewrite bool_decide_true by (simpl; lia).
  rewrite (run_bind_ok (first_item (f :: rest)) _ s2 f s2 eq_refl).
  erewrite run_try_caught; [|by rewrite (run_bind_raise _ _ _ _ _ Hrej)].
  reflexivity.
Qed.

Lemma test_13_FAIL_names_last_output_witness :
  ∃ o, last [Sim.output "first" "src" (Some []); Sim.output "second" "src" None]
       = Some o ∧
    test_13_violate_routing_constraints_rejected (Sim.api true) Sim.tester
      (Sim.start (Sim.with_answers
                    (Sim.device [Sim.input "in" "p" 1 true []]
                       [Sim.output "first" "src" (Some []);
                        Sim.output "second" "src" None]) false true))
    = (Ok (FAIL Sim.tester (forbidden_msg "in" (id_ o))),
       (checkReject (Sim.api true)
          (addAction (Action_ "in" (OutputId "first")) Activation_)
          (getInputList (Sim.api true)
             (getOutputList (Sim.api true)
                (set_test Sim.tester
                   (Sim.start (Sim.with_answers
                      (Sim.device [Sim.input "in" "p" 1 true []]
                         [Sim.output "first" "src" (Some []);
                          Sim.output "second" "src" None]) false true))).2).2).2).2).
Proof.
  apply (test_13_FAIL_names_last_output (Sim.api true) Sim.tester
           (Sim.start (Sim.with_answers
                         (Sim.device [Sim.input "in" "p" 1 true []]
                            [Sim.output "first" "src" (Some []);
                             Sim.output "second" "src" None]) false true))
           _ _ _ _ _ _ _ _ _ _ eq_refl eq_refl eq_refl eq_refl eq_refl).
Defined.

(** ** Concrete runs of the verdict lemmas *)

Lemma test_13_never_passes_witness :
  result_state (NA Sim.tester "Could not test - no outputs have routing constraints set.")
    = NotApplicable
  ∨ result_state (NA Sim.tester "Could not test - no outputs have routing constraints set.")
    = Fail.
Proof.
  apply (test_13_never_passes (Sim.api true) Sim.tester (Sim.start Sim.sound)
           _ _ eq_refl).
Defined.

Lemma test_14_NA_or_TypeError_witness :
  test_14_reordering_constraint (Sim.api true) Sim.tester (Sim.start Sim.sound)
  = (if existsb (λ i, negb (getReordering i)) [Sim.an_input]
     then (Raise TypeError,
           (getInputList (Sim.api true)
              (set_test Sim.tester (Sim.start Sim.sound)).2).2)
     else (Ok (NA Sim.tester "No inputs prevent re-ordering."),
           (getInputList (Sim.api true)
              (set_test Sim.tester (Sim.start Sim.sound)).2).2)).
Proof.
  apply (test_14_NA_or_TypeError (Sim.api true) Sim.tester (Sim.start Sim.sound)
           _ _ eq_refl).
Defined.

Lemma test_15_NA_or_AttributeError_witness :
  test_15_block_constraint (Sim.api true) Sim.tester (Sim.start Sim.sound)
  = (if existsb (λ i, bool_decide (1 < getBlockSize i)%nat) [Sim.an_input]
     then (Raise AttributeError,
           (getInputList (Sim.api true)
              (set_test Sim.tester (Sim.start Sim.sound)).2).2)
     else (Ok (NA Sim.tester "No inputs constrain by block."),
           (getInputList (Sim.api true)
              (set_test Sim.tester (Sim.start Sim.sound)).2).2)).
Proof.
  apply (test_15_NA_or_AttributeError (Sim.api true) Sim.tester
           (Sim.start Sim.sound) _ _ eq_refl).
Defined.

Lemma test_08_verdict_witness :
  ∃ r, test_08_no_reentrant_loops (Sim.api true) Sim.tester (Sim.start Sim.sound)
       = (Ok r,
          (getInputList (Sim.api true)
             (getOutputList (Sim.api true)
                (set_test Sim.tester (Sim.start Sim.sound)).2).2).2)
       ∧ (result_state r = Pass ∨ result_state r = Fail)
       ∧ (result_state r = Pass ↔
            ∀ o i, o ∈ [Sim.an_output] → i ∈ [Sim.an_input] →
              getSourceID o = getParent i →
              ∃ l, routable_inputs (getCaps o) = Some l ∧ id_ o ∈ l).
Proof.
  apply (test_08_verdict (Sim.api true) Sim.tester (Sim.start Sim.sound)
           _ _ _ _ eq_refl eq_refl).
Defined.

(** ** The activation tests: verdicts and error paths *)

Section Activations.
Context {W : Type} (api : Api W).

Lemma run_try_raised {A} (m : M W A) h (s s' : State W) (e : exn) :
  (∀ r, e ≠ NMOSTestException r) →
  m s = (Raise e, s') → try_except m h s = (Raise e, s').
Proof.
  intros He H. unfold try_except. rewrite H. destruct e; try done.
  by destruct (He r).
Qed.

(** The run of check_delayed_activation up to the comparison of the two
    snapshots, when the scheduled activation was applied at once. *)
Lemma check_delayed_activation_early (activationTime : string)
    (activationType : ActivationType) (t : Test)
    (s s1 s2 s3 s4 s5 s6 : State W) (pre pending : json)
    (o : Output) (outs : list Output) (a : Action) :
  test (config s) = Some t →
  unrouteAll api s = (Ok (), s1) →
  buildJSONObject api s1 = (Ok pre, s2) →
  getOutputList api s2 = (Ok (o :: outs), s3) →
  findAcceptableTestRoute api o s3 = (Ok a, s4) →
  fireActivation api
    {| actions := [a]; type_ := activationType;
       activationTimestamp := Some activationTime |} s4 = (Ok (), s5) →
  buildJSONObject api s5 = (Ok pending, s6) →
  compare_json api pre pending = false →
  check_delayed_activation api activationTime activationType s =
    (Raise (NMOSTestException
              (FAIL t "Scheduled Activation completed immediately")), s6).
Proof.
  intros Ht H1 H2 H3 H4 H5 H6 Hcmp.
  pose proof (call_state api UnrouteAll _ _ _ H1) as [E1 _].
  pose proof (call_state api BuildJSONObject _ _ _ H2) as [E2 _].
  pose proof (call_state api GetOutputList _ _ _ H3) as [E3 _].
  pose proof (call_state api (FindAcceptableTestRoute o) _ _ _ H4) as [E4 _].
  pose proof (call_state api (FireActivation _) _ _ _ H5) as [E5 _].
  pose proof (call_state api BuildJSONObject _ _ _ H6) as [E6 _].
  unfold check_delayed_activation.
  run_ok H1. run_ok H2. run_ok H3.
  rewrite (run_bind_ok (first_item (o :: outs)) _ s3 o s3 eq_refl).
  run_ok H4. rewrite run_bind.
  rewrite (run_try_ok _ _ _ _ _ H5).
  run_ok H6. rewrite Hcmp. simpl. rewrite run_bind, run_bind.
  unfold current_test at 1. by rewrite E6, E5, E4, E3, E2, E1, Ht.
Qed.
End Activations.

(** X14: tests 02 to 06 return no verdict other than PASS; whatever goes
    wrong in them surfaces as an exception. *)
Theorem activation_tests_only_pass {W} (api : Api W) (t : Test) (s : State W) :
  Forall (λ tc, ∀ r s', run_test api tc t s = (Ok r, s') → r = PASS t)
    [T02; T03; T04; T05; T06].
Proof.
  repeat constructor; intros r s' H; simpl in H.
  all: repeat (apply bind_ok_inv in H as (? & ? & _ & H)).
  all: by injection H as <- _.
Qed.

Lemma activation_tests_only_pass_witness :
  PASS Sim.tester = PASS Sim.tester.
Proof.
  pose proof (activation_tests_only_pass (Sim.api true) Sim.tester
                (Sim.start Sim.sound)) as H.
  apply Forall_cons_1 in H as [H _].
  exact (eq_sym (H _ _ eq_refl)).
Defined.

(** X15: when submitting the scheduled activation of test_05 raises an
    NMOSTestException, the test sleeps 2 seconds and raises that same
    exception, and never calls delete; any other exception from the
    submission propagates at once, without the sleep. *)
Theorem test_05_submission_error {W} (api : Api W) (t : Test)
    (s s1 s2 s3 s4 : State W) (o : Output) (outs : list Output) (a : Action) :
  let activation :=
    {| actions := [a]; type_ := SCHEDULED_RELATIVE_ACTIVATION;
       activationTimestamp := Some "2:0" |} in
  unrouteAll api (set_test t s).2 = (Ok (), s1) →
  getOutputList api s1 = (Ok (o :: outs), s2) →
  findAcceptableTestRoute api o s2 = (Ok a, s3) →
  (∀ e s5,
     fireActivation api activation s3 = (Raise (NMOSTestException e), s4) →
     sleep api 2 s4 = (Ok (), s5) →
     test_05_delete_activations api t s = (Raise (NMOSTestException e), s5)
     ∧ (log s5).*1 =
         (log s).*1 ++ [UnrouteAll; GetOutputList; FindAcceptableTestRoute o;
                        FireActivation activation; Sleep 2]) ∧
  (∀ e,
     (∀ r, e ≠ NMOSTestException r) →
     fireActivation api activation s3 = (Raise e, s4) →
     test_05_delete_activations api t s = (Raise e, s4)).
Proof.
  intros activation H1 H2 H3. split.
  - intros e s5 H4 H5. split.
    + unfold test_05_delete_activations. run_set_test t s.
      run_ok H1. run_ok H2.
      rewrite (run_bind_ok (first_item (o :: outs)) _ s2 o s2 eq_refl).
      run_ok H3. rewrite run_bind.
      rewrite (run_try_caught _ _ _ _ _ H4). by run_ok H5.
    + rewrite (call_log api (Sleep 2) _ _ _ H5),
        (call_log api (FireActivation activation) _ _ _ H4),
        (call_log api (FindAcceptableTestRoute o) _ _ _ H3),
        (call_log api GetOutputList _ _ _ H2),
        (call_log api UnrouteAll _ _ _ H1).
      by rewrite <-!(assoc_L (++)).
  - intros e He H4. unfold test_05_delete_activations. run_set_test t s.
    run_ok H1. run_ok H2.
    rewrite (run_bind_ok (first_item (o :: outs)) _ s2 o s2 eq_refl).
    run_ok H3. rewrite run_bind.
    by rewrite (run_try_raised _ _ _ _ _ He H4).
Qed.

(** X16: when submitting the scheduled activation raises an
    NMOSTestException, check_delayed_activation sleeps 2 seconds and raises
    that same exception, without reading the Active resource again; any
    other exception from the submission propagates at once. *)
Theorem check_delayed_activation_submission_error {W} (api : Api W)
    (activationTime : string) (activationType : ActivationType)
    (s s1 s2 s3 s4 s5 : State W) (pre : json)
    (o : Output) (outs : list Output) (a : Action) :
  let activation :=
    {| actions := [a]; type_ := activationType;
       activationTimestamp := Some activationTime |} in
  unrouteAll api s = (Ok (), s1) →
  buildJSONObject api s1 = (Ok pre, s2) →
  getOutputList api s2 = (Ok (o :: outs), s3) →
  findAcceptableTestRoute api o s3 = (Ok a, s4) →
  (∀ e s6,
     fireActivation api activation s4 = (Raise (NMOSTestException e), s5) →
     sleep api 2 s5 = (Ok (), s6) →
     check_delayed_activation api activationTime activationType s =
       (Raise (NMOSTestException e), s6)
     ∧ (log s6).*1 =
         (log s).*1 ++ [UnrouteAll; BuildJSONObject; GetOutputList;
                        FindAcceptableTestRoute o; FireActivation activation;
                        Sleep 2]) ∧
  (∀ e,
     (∀ r, e ≠ NMOSTestException r) →
     fireActivation api activation s4 = (Raise e, s5) →
     check_delayed_activation api activationTime activationType s = (Raise e, s5)).
Proof.
  intros activation H1 H2 H3 H4. split.
  - intros e s6 H5 H6. split.
    + unfold check_delayed_activation. run_ok H1. run_ok H2. run_ok H3.
      rewrite (run_bind_ok (first_item (o :: outs)) _ s3 o s3 eq_refl).
      run_ok H4. rewrite run_bind.
      rewrite (run_try_caught _ _ _ _ _ H5). by run_ok H6.
    + rewrite (call_log api (Sleep 2) _ _ _ H6),
        (call_log api (FireActivation activation) _ _ _ H5),
        (call_log api (FindAcceptableTestRoute o) _ _ _ H4),
        (call_log api GetOutputList _ _ _ H3),
        (call_log api BuildJSONObject _ _ _ H2),
        (call_log api UnrouteAll _ _ _ H1).
      by rewrite <-!(assoc_L (++)).
  - intros e He H5. unfold check_delayed_activation.
    run_ok H1. run_ok H2. run_ok H3.
    rewrite (run_bind_ok (first_item (o :: outs)) _ s3 o s3 eq_refl).
    run_ok H4. rewrite run_bind.
    by rewrite (run_try_raised _ _ _ _ _ He H5).
Qed.

(** X17: when the device applies the relative activation of test_03 at
    once, the exception test_03 raises carries FAIL for the handle of test_03
    itself, whatever handle the configuration held before the test. *)
Theorem test_03_early_completion_blames_itself {W} (api : Api W) (t : Test)
    (s s1 s2 s3 s4 s5 s6 : State W) (pre pending : json)
    (o : Output) (outs : list Output) (a : Action) :
  unrouteAll api (set_test t s).2 = (Ok (), s1) →
  buildJSONObject api s1 = (Ok pre, s2) →
  getOutputList api s2 = (Ok (o :: outs), s3) →
  findAcceptableTestRoute api o s3 = (Ok a, s4) →
  fireActivation api
    {| actions := [a]; type_ := SCHEDULED_RELATIVE_ACTIVATION;
       activationTimestamp := Some "2:0" |} s4 = (Ok (), s5) →
  buildJSONObject api s5 = (Ok pending, s6) →
  compare_json api pre pending = false →
  test_03_relative_activation api t s =
    (Raise (NMOSTestException
              (FAIL t "Scheduled Activation completed immediately")), s6).
Proof.
  intros H1 H2 H3 H4 H5 H6 Hcmp.
  unfold test_03_relative_activation. run_set_test t s. cbv zeta.
  by rewrite (run_bind_raise _ _ _ _ _
    (check_delayed_activation_early api _ _ t (set_test t s).2
       _ _ _ _ _ _ _ _ _ _ _ eq_refl H1 H2 H3 H4 H5 H6 Hcmp)).
Qed.

(** X18: test_04 submits its activation with the timestamp that
    [get_TAI_time] returned and the absolute type; when the device applies
    it at once, the exception raised carries FAIL for the handle of test_04
    itself. *)
Theorem test_04_early_completion_blames_itself {W} (api : Api W) (t : Test)
    (s s0 s1 s2 s3 s4 s5 s6 : State W) (timestamp : string) (pre pending : json)
    (o : Output) (outs : list Output) (a : Action) :
  get_TAI_time api 2 (set_test t s).2 = (Ok timestamp, s0) →
  unrouteAll api s0 = (Ok (), s1) →
  buildJSONObject api s1 = (Ok pre, s2) →
  getOutputList api s2 = (Ok (o :: outs), s3) →
  findAcceptableTestRoute api o s3 = (Ok a, s4) →
  fireActivation api
    {| actions := [a]; type_ := SCHEDULED_ABSOLUTE_ACTIVATION;
       activationTimestamp := Some timestamp |} s4 = (Ok (), s5) →
  buildJSONObject api s5 = (Ok pending, s6) →
  compare_json api pre pending = false →
  test_04_absolute_activation api t s =
    (Raise (NMOSTestException
              (FAIL t "Scheduled Activation completed immediately")), s6).
Proof.
  intros H0 H1 H2 H3 H4 H5 H6 Hcmp.
  pose proof (call_state api (GetTAITime 2) _ _ _ H0) as [E0 _].
  unfold test_04_absolute_activation. run_set_test t s. run_ok H0.
  assert (Ht : test (config s0) = Some t) by (by rewrite E0).
  by rewrite (run_bind_raise _ _ _ _ _
    (check_delayed_activation_early api _ _ t _ _ _ _ _ _ _ _ _ _ _ _
       Ht H1 H2 H3 H4 H5 H6 Hcmp)).
Qed.


Lemma test_05_submission_error_witness :
  (test_05_delete_activations
     (Sim.refusing (NMOSTestException (FAIL Sim.tester "refused")))
     Sim.tester (Sim.start Sim.sound)).1
  = Raise (NMOSTestException (FAIL Sim.tester "refused"))
  ∧ (test_05_delete_activations (Sim.refusing (OtherException "ConnectionError"))
       Sim.tester (Sim.start Sim.sound)).1
    = Raise (OtherException "ConnectionError").
Proof.
  split.
  - exact (f_equal fst (proj1 (proj1
      (test_05_submission_error
         (Sim.refusing (NMOSTestException (FAIL Sim.tester "refused")))
         Sim.tester (Sim.start Sim.sound) _ _ _ _ _ _ _
         eq_refl eq_refl eq_refl) _ _ eq_refl eq_refl))).
  - refine (f_equal fst (proj2
      (test_05_submission_error (Sim.refusing (OtherException "ConnectionError"))
         Sim.tester (Sim.start Sim.sound) _ _ _ _ _ _ _
         eq_refl eq_refl eq_refl) _ _ eq_refl)).
    discriminate.
Defined.

Lemma check_delayed_activation_submission_error_witness :
  (check_delayed_activation
     (Sim.refusing (NMOSTestException (FAIL Sim.tester "refused")))
     "2:0" SCHEDULED_RELATIVE_ACTIVATION (Sim.start Sim.sound)).1
  = Raise (NMOSTestException (FAIL Sim.tester "refused"))
  ∧ (check_delayed_activation (Sim.refusing (OtherException "ConnectionError"))
       "2:0" SCHEDULED_RELATIVE_ACTIVATION (Sim.start Sim.sound)).1
    = Raise (OtherException "ConnectionError").
Proof.
  split.
  - exact (f_equal fst (proj1 (proj1
      (check_delayed_activation_submission_error
         (Sim.refusing (NMOSTestException (FAIL Sim.tester "refused")))
         "2:0" SCHEDULED_RELATIVE_ACTIVATION (Sim.start Sim.sound)
         _ _ _ _ _ _ _ _ _
         eq_refl eq_refl eq_refl eq_refl) _ _ eq_refl eq_refl))).
  - refine (f_equal fst (proj2
      (check_delayed_activation_submission_error
         (Sim.refusing (OtherException "ConnectionError"))
         "2:0" SCHEDULED_RELATIVE_ACTIVATION (Sim.start Sim.sound)
         _ _ _ _ _ _ _ _ _
         eq_refl eq_refl eq_refl eq_refl) _ _ eq_refl)).
    discriminate.
Defined.

Lemma test_03_early_completion_blames_itself_witness :
  (test_03_relative_activation (Sim.api true) Sim.tester
     {| config := {| apiUrl := ""; apiKey := MAPPING_API_KEY;
                     test := Some {| test_name := "previous" |} |};
        world := Sim.hasty; log := [] |}).1
  = Raise (NMOSTestException
             (FAIL Sim.tester "Scheduled Activation completed immediately")).
Proof.
  exact (f_equal fst
    (test_03_early_completion_blames_itself (Sim.api true) Sim.tester
       {| config := {| apiUrl := ""; apiKey := MAPPING_API_KEY;
                       test := Some {| test_name := "previous" |} |};
          world := Sim.hasty; log := [] |}
       _ _ _ _ _ _ _ _ _ _ _
       eq_refl eq_refl eq_refl eq_refl eq_refl eq_refl eq_refl)).
Defined.

Lemma test_04_early_completion_blames_itself_witness :
  (test_04_absolute_activation (Sim.api true) Sim.tester
     {| config := {| apiUrl := ""; apiKey := MAPPING_API_KEY;
                     test := Some {| test_name := "previous" |} |};
        world := Sim.hasty; log := [] |}).1
  = Raise (NMOSTestException
             (FAIL Sim.tester "Scheduled Activation completed immediately")).
Proof.
  exact (f_equal fst
    (test_04_early_completion_blames_itself (Sim.api true) Sim.tester
       {| config := {| apiUrl := ""; apiKey := MAPPING_API_KEY;
                       test := Some {| test_name := "previous" |} |};
          world := Sim.hasty; log := [] |}
       _ _ _ _ _ _ _ _ _ _ _ _ _
       eq_refl eq_refl eq_refl eq_refl eq_refl eq_refl eq_refl eq_refl)).
Defined.

(** ** test_08: the order of the candidates *)

(** X13: the re-entrant candidates of test_08 are enumerated output by
    output in the order the outputs were fetched, and for each output the
    inputs whose parent equals its source id, in the order the inputs were
    fetched; nothing else is a candidate and nothing is listed twice. *)
Theorem forbiddenRoutes_enumeration (outs : list Output) (ins : list Input) :
  forbiddenRoutes outs ins =
  o ← outs;
  i ← filter (λ i, getSourceID o = getParent i) ins;
  [{| route_input := i; route_output := o |}].
Proof.
  unfold forbiddenRoutes.
  assert (Hinner : ∀ o l acc,
    foldl (λ routes inputInstance,
      if bool_decide (getSourceID o = getParent inputInstance)
      then routes ++ [{| route_input := inputInstance; route_output := o |}]
      else routes) acc l =
    acc ++ (i ← filter (λ i, getSourceID o = getParent i) l;
            [{| route_input := i; route_output := o |}])).
  { intros o l. induction l as [|i l IH]; intros acc; simpl.
    - by rewrite app_nil_r.
    - rewrite IH. case_bool_decide as Hs.
      + rewrite filter_cons_True by done. by rewrite bind_cons, <-(assoc_L (++)).
      + by rewrite filter_cons_False by done. }
  enough (Hgen : ∀ acc,
    foldl (λ routes outputInstance,
      foldl (λ routes inputInstance,
        if bool_decide (getSourceID outputInstance = getParent inputInstance)
        then routes ++ [{| route_input := inputInstance;
                           route_output := outputInstance |}]
        else routes) routes ins) acc outs =
    acc ++ (o ← outs;
            i ← filter (λ i, getSourceID o = getParent i) ins;
            [{| route_input := i; route_output := o |}])) by apply Hgen.
  induction outs as [|o outs IH]; intros acc; simpl.
  - by rewrite app_nil_r.
  - by rewrite IH, Hinner, <-(assoc_L (++)).
Qed.

(** ** test_01: the dictionaries it fills *)

Section Mock.
Context {W : Type}.

Lemma foldl_insert_other {A} `{Resource A} (object : A → json) (l : list A)
    (m : gmap string json) (k : string) :
  (∀ y, y ∈ l → id_ y ≠ k) →
  foldl (λ m x, <[id_ x := object x]> m) m l !! k = m !! k.
Proof.
  revert m. induction l as [|y l IH]; intros m Hk; simpl; [done|].
  rewrite IH.
  - apply lookup_insert_ne, Hk. by left.
  - intros z Hz. apply Hk. by right.
Qed.
End Mock.

(** X19: the loop [mock[k][x.id] = object(x)] of test_01, started on an
    empty object under [k], never fails and changes only the entry [k]; the
    keys it leaves there are exactly the ids of the resources, and each id
    maps to the object of the last resource that carries it. *)
Theorem mock_filled_by_id {W A} `{Resource A} (object : A → json) (k : string)
    (l : list A) (d : gmap string json) (s : State W) :
  d !! k = Some (JObj ∅) →
  ∃ m, for_acc l d (λ mock x, setitem2 mock k (id_ x) (object x)) s
       = (Ok (<[k := JObj m]> d), s)
     ∧ dom m = list_to_set (id_ <$> l)
     ∧ (∀ l1 x l2, l = l1 ++ x :: l2 → (∀ y, y ∈ l2 → id_ y ≠ id_ x) →
          m !! id_ x = Some (object x)).
Proof.
  intros Hd. eexists. split; [by apply for_acc_setitem2|]. split.
  - rewrite foldl_insert_keyed, (right_id_L ∅ (∪)). unfold keyed_by_id.
    rewrite dom_list_to_map_L. apply set_eq. intros i.
    rewrite !elem_of_list_to_set, fmap_reverse, elem_of_reverse.
    by rewrite <-list_fmap_compose.
  - intros l1 x l2 -> Hlast. rewrite foldl_app. simpl.
    rewrite foldl_insert_other by done. apply lookup_insert_eq.
Qed.

Lemma mock_filled_by_id_witness :
  ∃ m, for_acc [Sim.an_input; Sim.input "in" "other" 2 true []]
         (<["inputs" := JObj ∅]> ∅)
         (λ mock x, setitem2 mock "inputs" (id_ x) (JNum (Z.of_nat (getBlockSize x))))
         (Sim.start Sim.sound)
       = (Ok (<["inputs" := JObj m]> (<["inputs" := JObj ∅]> ∅)), Sim.start Sim.sound)
     ∧ dom m = list_to_set (id_ <$> [Sim.an_input; Sim.input "in" "other" 2 true []])
     ∧ (∀ l1 x l2,
          [Sim.an_input; Sim.input "in" "other" 2 true []] = l1 ++ x :: l2 →
          (∀ y, y ∈ l2 → id_ y ≠ id_ x) →
          m !! id_ x = Some (JNum (Z.of_nat (getBlockSize x)))).
Proof.
  apply (mock_filled_by_id (λ x, JNum (Z.of_nat (getBlockSize x))) "inputs"
           [Sim.an_input; Sim.input "in" "other" 2 true []]
           (<["inputs" := JObj ∅]> ∅) (Sim.start Sim.sound)).
  reflexivity.
Defined.

(** X20: when the resources carry distinct ids, the dictionary the loop of
    test_01 builds does not depend on the order in which they were
    fetched. *)
Theorem mock_order_irrelevant {W A} `{Resource A} (object : A → json) (k : string)
    (l l' : list A) (d m0 : gmap string json) (s : State W) :
  d !! k = Some (JObj m0) →
  NoDup (id_ <$> l) →
  l ≡ₚ l' →
  for_acc l d (λ mock x, setitem2 mock k (id_ x) (object x)) s =
  for_acc l' d (λ mock x, setitem2 mock k (id_ x) (object x)) s.
Proof.
  intros Hd Hnd Hp. rewrite !(for_acc_setitem2 _ _ _ _ _ _ Hd).
  rewrite !foldl_insert_keyed.
  enough (Heq : keyed_by_id object l = keyed_by_id object l') by (by rewrite Heq).
  unfold keyed_by_id. apply list_to_map_proper.
  - by rewrite fmap_reverse, reverse_Permutation, <-list_fmap_compose.
  - by rewrite !reverse_Permutation, Hp.
Qed.

Lemma mock_order_irrelevant_witness :
  for_acc [Sim.input "a" "p" 1 true []; Sim.input "b" "p" 2 true []]
    (<["inputs" := JObj ∅]> ∅)
    (λ mock x, setitem2 mock "inputs" (id_ x) (JNum (Z.of_nat (getBlockSize x))))
    (Sim.start Sim.sound) =
  for_acc [Sim.input "b" "p" 2 true []; Sim.input "a" "p" 1 true []]
    (<["inputs" := JObj ∅]> ∅)
    (λ mock x, setitem2 mock "inputs" (id_ x) (JNum (Z.of_nat (getBlockSize x))))
    (Sim.start Sim.sound).
Proof.
  apply (mock_order_irrelevant (λ x, JNum (Z.of_nat (getBlockSize x))) "inputs"
           _ _ (<["inputs" := JObj ∅]> ∅) ∅ (Sim.start Sim.sound)).
  - reflexivity.
  - apply NoDup_cons. split; [by intros [=]%list_elem_of_singleton|].
    apply NoDup_singleton.
  - apply Permutation_swap.
Defined.
